(** * bt-presence: the presence-detection engine of [src/index.ts]

    A shallow embedding of the [btPresence] class: the device registry,
    the l2ping options store, the presence aggregator ([onPingResult]),
    the probe runner ([pingBluetoothDevice]), the scan scheduler
    ([scanForAllDevices], [start], [stop]) and the availability gate
    ([checkForL2Ping]), together with a small model of the Node.js host
    (timers, child processes and the event emitter) they run against. *)

From Stdlib Require Import List String Ascii Bool ZArith Lia PeanoNat.
Import ListNotations.
Open Scope string_scope.
Open Scope list_scope.
Open Scope Z_scope.

(* ================================================================== *)
(** ** The lodash helpers the class uses *)
(* ================================================================== *)

Module Lodash.

(** A character of the model is a code unit below 256 (Latin-1).  The
    upper-case letters among them are [A]..[Z] (65..90) and the accented
    capitals U+00C0..U+00DE (192..222) without the multiplication sign
    U+00D7 (215). *)
Definition isUpper (c : ascii) : bool :=
  let n := nat_of_ascii c in
  ((65 <=? n) && (n <=? 90)
   || (192 <=? n) && (n <=? 222) && negb (n =? 215))%nat.

(** [String.prototype.toLowerCase] on one code unit: each upper-case
    letter moves 32 places up to its lower-case form, every other code
    unit is kept. *)
Definition lowerAscii (c : ascii) : ascii :=
  if isUpper c then ascii_of_nat (nat_of_ascii c + 32) else c.

(** [_.toLower(string)]. *)
Fixpoint toLower (s : string) : string :=
  match s with
  | EmptyString => EmptyString
  | String c r => String (lowerAscii c) (toLower r)
  end.

(** [_.includes] on an array of strings. *)
Definition includes (l : list string) (x : string) : bool :=
  existsb (String.eqb x) l.

(** [_.uniq(array)]: lodash's [baseUniq] walks the array once and keeps
    a value when it is not yet among the values kept so far, so the
    FIRST occurrence of every value survives, in order. *)
Fixpoint baseUniq (seen : list string) (l : list string) : list string :=
  match l with
  | [] => []
  | x :: r =>
      if includes seen x then baseUniq seen r
      else x :: baseUniq (x :: seen) r
  end.

Definition uniq (l : list string) : list string := baseUniq [] l.

(** [_.concat(array, values)] with an array argument. *)
Definition concat (l values : list string) : list string := l ++ values.

(** [_.concat(array, value)] with a single (non-array) value. *)
Definition concat1 (l : list string) (value : string) : list string :=
  l ++ [value].

(** [_.pullAll(array, values)]: every element equal to one of [values]
    is removed. *)
Definition pullAll (l values : list string) : list string :=
  filter (fun x => negb (includes values x)) l.

(** [_.pull(array, value)]. *)
Definition pull (l : list string) (value : string) : list string :=
  pullAll l [value].

End Lodash.

(* ================================================================== *)
(** ** JavaScript values held in the options struct *)
(* ================================================================== *)

(** A field of the options object as [setPingOptions] can receive it:
    absent ([undefined]), [NaN], or a number.  Numbers are modelled by
    their integer values. *)
Inductive JsNum : Type :=
| JsUndefined
| JsNaN
| JsNumber (z : Z).

(** JavaScript truthiness, as tested by [x ? a : b]. *)
Definition truthy (v : JsNum) : bool :=
  match v with
  | JsUndefined => false
  | JsNaN => false
  | JsNumber z => negb (z =? 0)
  end.

Record L2pingOptions : Type := mkOptions {
  count : JsNum;
  timeoutSecs : JsNum
}.

Record PingResult : Type := mkResult {
  address : string;
  isPresent : bool
}.

(** A child process handle as the class sees it: its pid and the
    [killed] flag that [kill()] sets. *)
Record ChildProcess : Type := mkChild {
  pid : nat;
  killed : bool
}.

(** Handle returned by [setTimeout]. *)
Definition Timer : Type := nat.

(* ================================================================== *)
(** ** The fields of a [btPresence] instance *)
(* ================================================================== *)

Record btPresence : Type := mkBt {
  btDevicesToPing : list string;
  btDevicesPresent : list string;
  scanIntervalSecs : Z;
  isL2PingAvailable : bool;
  timer : option Timer;
  reportFirstResult : bool;
  runningPings : list ChildProcess;
  l2pingOptions : L2pingOptions
}.

(** The field initialisers of the class. *)
Definition defaultOptions : L2pingOptions :=
  {| count := JsNumber 1; timeoutSecs := JsNumber 5 |}.

Definition newBt : btPresence :=
  {| btDevicesToPing := [];
     btDevicesPresent := [];
     scanIntervalSecs := 15;
     isL2PingAvailable := false;
     timer := None;
     reportFirstResult := true;
     runningPings := [];
     l2pingOptions := defaultOptions |}.

Definition set_btDevicesToPing (v : list string) (b : btPresence) :=
  mkBt v (btDevicesPresent b) (scanIntervalSecs b) (isL2PingAvailable b)
       (timer b) (reportFirstResult b) (runningPings b) (l2pingOptions b).
Definition set_btDevicesPresent (v : list string) (b : btPresence) :=
  mkBt (btDevicesToPing b) v (scanIntervalSecs b) (isL2PingAvailable b)
       (timer b) (reportFirstResult b) (runningPings b) (l2pingOptions b).
Definition set_scanIntervalSecs (v : Z) (b : btPresence) :=
  mkBt (btDevicesToPing b) (btDevicesPresent b) v (isL2PingAvailable b)
       (timer b) (reportFirstResult b) (runningPings b) (l2pingOptions b).
Definition set_isL2PingAvailable (v : bool) (b : btPresence) :=
  mkBt (btDevicesToPing b) (btDevicesPresent b) (scanIntervalSecs b) v
       (timer b) (reportFirstResult b) (runningPings b) (l2pingOptions b).
Definition set_timer (v : option Timer) (b : btPresence) :=
  mkBt (btDevicesToPing b) (btDevicesPresent b) (scanIntervalSecs b)
       (isL2PingAvailable b) v (reportFirstResult b) (runningPings b)
       (l2pingOptions b).
Definition set_reportFirstResult (v : bool) (b : btPresence) :=
  mkBt (btDevicesToPing b) (btDevicesPresent b) (scanIntervalSecs b)
       (isL2PingAvailable b) (timer b) v (runningPings b) (l2pingOptions b).
Definition set_runningPings (v : list ChildProcess) (b : btPresence) :=
  mkBt (btDevicesToPing b) (btDevicesPresent b) (scanIntervalSecs b)
       (isL2PingAvailable b) (timer b) (reportFirstResult b) v
       (l2pingOptions b).
Definition set_l2pingOptions (v : L2pingOptions) (b : btPresence) :=
  mkBt (btDevicesToPing b) (btDevicesPresent b) (scanIntervalSecs b)
       (isL2PingAvailable b) (timer b) (reportFirstResult b)
       (runningPings b) v.

(* ================================================================== *)
(** ** Device registry and options store (no host interaction) *)
(* ================================================================== *)

(** [addDevices]: the argument is [None] when the caller passes
    [undefined]. *)
Definition addDevices (btMacAddressArray : option (list string))
    (b : btPresence) : btPresence :=
  match btMacAddressArray with
  | Some arr =>
      let macsLowerCase := map Lodash.toLower arr in
      set_btDevicesToPing
        (Lodash.uniq (Lodash.concat (btDevicesToPing b) macsLowerCase)) b
  | None => b
  end.

Definition removeDevices (btMacAddressArray : option (list string))
    (b : btPresence) : btPresence :=
  match btMacAddressArray with
  | Some arr =>
      let macsLowerCase := map Lodash.toLower arr in
      set_btDevicesToPing
        (Lodash.uniq (Lodash.pullAll (btDevicesToPing b) macsLowerCase)) b
  | None => b
  end.

Definition getDevices (b : btPresence) : list string := btDevicesToPing b.

Definition setDevices (btMacAddressArray : list string) (b : btPresence)
    : btPresence :=
  let macsLowerCase := map Lodash.toLower btMacAddressArray in
  set_btDevicesToPing (Lodash.uniq macsLowerCase) b.

Definition getPingOptions (b : btPresence) : L2pingOptions := l2pingOptions b.

Definition setPingOptions (options : L2pingOptions) (b : btPresence)
    : btPresence :=
  let newOptions :=
    {| count := if truthy (count options) then count options else JsNumber 1;
       timeoutSecs := if truthy (timeoutSecs options)
                      then timeoutSecs options else JsNumber 5 |} in
  set_l2pingOptions newOptions b.

Definition getIntervalSeconds (b : btPresence) : Z := scanIntervalSecs b.

Definition setIntervalSeconds (secs : option Z) (b : btPresence)
    : btPresence :=
  match secs with
  | Some s => set_scanIntervalSecs s b
  | None => b
  end.

(* ================================================================== *)
(** ** The Node.js host: timers, child processes, the event emitter *)
(* ================================================================== *)

(** The closures the class hands to the host, defunctionalised.  The only
    continuation ever passed to [checkForL2Ping] and to [setTimeout] is
    [this.scanForAllDevices.bind(this)]; the only result sink ever passed
    to [pingBluetoothDevice] is [this.onPingResult.bind(this)]. *)
Inductive Next : Type := ScanForAllDevices.
Inductive Callback : Type := OnPingResult.

(** A spawned process together with the environment of the handlers
    registered on it. *)
Inductive Proc : Type :=
| WhichL2ping (next : option Next)
    (* spawn('which', ['l2ping']) *)
| L2ping (cnt tmo : JsNum) (macAddress : string) (callback : option Callback).
    (* spawn('l2ping', ['-c', cnt, '-t', tmo, macAddress]) *)

(** The three events of the emitter. *)
Inductive Event : Type :=
| EvPingResult (r : PingResult)
| EvPresent (a : string)
| EvNotPresent (a : string).

(** One call of [this.emit]: the event, and the presence list a listener
    observes on the instance while it is being notified. *)
Record Emission : Type := mkEmission {
  event : Event;
  presentAtEmit : list string
}.

Record Host : Type := mkHost {
  pendingTimers : list (Timer * Z);   (* armed single-shot timers, delay in ms *)
  nextTimer : Timer;
  nextPid : nat;
  procs : list (nat * Proc);          (* processes with live handlers, by pid *)
  signals : list nat;                 (* pids that [kill()] has signalled *)
  emitted : list Emission;            (* every emit, oldest first *)
  exited : list nat;                  (* pids whose process has emitted 'exit' *)
  console : list string               (* lines written with [console.error] *)
}.

Definition newHost : Host :=
  {| pendingTimers := []; nextTimer := 0%nat; nextPid := 1%nat;
     procs := []; signals := []; emitted := []; exited := [];
     console := [] |}.

Record World : Type := mkWorld {
  self : btPresence;
  host : Host
}.

Definition newWorld : World := {| self := newBt; host := newHost |}.

Definition onSelf (f : btPresence -> btPresence) (w : World) : World :=
  {| self := f (self w); host := host w |}.
Definition onHost (f : Host -> Host) (w : World) : World :=
  {| self := self w; host := f (host w) |}.

(** The delay a timer is armed with: Node replaces a delay below 1 ms or
    above 2147483647 ms by 1 ms. *)
Definition armedDelay (ms : Z) : Z :=
  if (1 <=? ms) && (ms <=? 2147483647) then ms else 1.

(** [setTimeout(cb, ms)]: a fresh handle, armed. *)
Definition setTimeout (ms : Z) (h : Host) : Timer * Host :=
  let t := nextTimer h in
  (t, mkHost (pendingTimers h ++ [(t, armedDelay ms)]) (S t) (nextPid h)
             (procs h) (signals h) (emitted h) (exited h) (console h)).

(** [clearTimeout(t)]. *)
Definition clearTimeout (t : Timer) (h : Host) : Host :=
  mkHost (filter (fun e => negb (Nat.eqb (fst e) t)) (pendingTimers h))
         (nextTimer h) (nextPid h) (procs h) (signals h) (emitted h)
         (exited h) (console h).

(** [spawn(...)]: handlers registered under a pid no other process has.
    A pid stands for the identity of the process; that the model numbers
    processes in spawning order says nothing about the pids of the
    operating system. *)
Definition spawn (p : Proc) (h : Host) : nat * Host :=
  let n := nextPid h in
  (n, mkHost (pendingTimers h) (nextTimer h) (S n) (procs h ++ [(n, p)])
             (signals h) (emitted h) (exited h) (console h)).

(** The handlers of a process are dropped once it is gone. *)
Definition reap (n : nat) (h : Host) : Host :=
  mkHost (pendingTimers h) (nextTimer h) (nextPid h)
         (filter (fun e => negb (Nat.eqb (fst e) n)) (procs h))
         (signals h) (emitted h) (exited h) (console h).

Definition signal (n : nat) (h : Host) : Host :=
  mkHost (pendingTimers h) (nextTimer h) (nextPid h) (procs h)
         (signals h ++ [n]) (emitted h) (exited h) (console h).

(** The process has emitted ['exit']. *)
Definition markExited (n : nat) (h : Host) : Host :=
  mkHost (pendingTimers h) (nextTimer h) (nextPid h) (procs h)
         (signals h) (emitted h) (exited h ++ [n]) (console h).

(** [console.error(line)]. *)
Definition logError (line : string) (h : Host) : Host :=
  mkHost (pendingTimers h) (nextTimer h) (nextPid h) (procs h)
         (signals h) (emitted h) (exited h) (console h ++ [line]).

Definition lookupProc (n : nat) (h : Host) : option Proc :=
  match find (fun e => Nat.eqb (fst e) n) (procs h) with
  | Some e => Some (snd e)
  | None => None
  end.

(** [this.emit(name, payload)]. *)
Definition emit (e : Event) (w : World) : World :=
  onHost (fun h =>
    mkHost (pendingTimers h) (nextTimer h) (nextPid h) (procs h) (signals h)
           (emitted h ++ [mkEmission e (btDevicesPresent (self w))])
           (exited h) (console h)) w.

(* ================================================================== *)
(** ** Presence aggregator *)
(* ================================================================== *)

Definition onPingResult (result : PingResult) (w : World) : World :=
  let devicesPresentAtLastCheck :=
    (0 <? List.length (btDevicesPresent (self w)))%nat in
  let w := emit (EvPingResult result) w in
  let w :=
    if isPresent result then
      onSelf (fun b => set_btDevicesPresent
                (Lodash.uniq (Lodash.concat1 (btDevicesPresent b)
                                             (address result))) b) w
    else
      onSelf (fun b => set_btDevicesPresent
                (Lodash.pull (btDevicesPresent b) (address result)) b) w in
  let w :=
    if (0 <? List.length (btDevicesPresent (self w)))%nat then
      if negb devicesPresentAtLastCheck || reportFirstResult (self w)
      then emit (EvPresent (address result)) w else w
    else
      if devicesPresentAtLastCheck || reportFirstResult (self w)
      then emit (EvNotPresent (address result)) w else w in
  onSelf (set_reportFirstResult false) w.

(* ================================================================== *)
(** ** Probe runner and scan scheduler *)
(* ================================================================== *)

Definition pingBluetoothDevice (macAddress : string)
    (callback : option Callback) (w : World) : World :=
  let opts := l2pingOptions (self w) in
  let '(n, h) := spawn (L2ping (count opts) (timeoutSecs opts)
                               macAddress callback) (host w) in
  {| self := set_runningPings (runningPings (self w) ++ [mkChild n false])
                              (self w);
     host := h |}.

Definition scanForAllDevices (w : World) : World :=
  let w :=
    if (List.length (btDevicesToPing (self w)) <=? 0)%nat then w
    else fold_left (fun w macAddress =>
                      pingBluetoothDevice macAddress (Some OnPingResult) w)
                   (btDevicesToPing (self w)) w in
  let '(t, h) := setTimeout (scanIntervalSecs (self w) * 1000) (host w) in
  {| self := set_timer (Some t) (self w); host := h |}.

Definition checkForL2Ping (next : option Next) (w : World) : World :=
  onHost (fun h => snd (spawn (WhichL2ping next) h)) w.

Definition start (reportFirst : option bool) (w : World) : World :=
  let w :=
    match reportFirst with
    | Some v => onSelf (set_reportFirstResult v) w
    | None => w
    end in
  if isL2PingAvailable (self w) then scanForAllDevices w
  else checkForL2Ping (Some ScanForAllDevices) w.

(** The process is known to the host and has not emitted ['exit'] yet. *)
Definition isRunning (n : nat) (h : Host) : bool :=
  match lookupProc n h with
  | Some _ => negb (existsb (Nat.eqb n) (exited h))
  | None => false
  end.

(** [p.kill()]: a running process is signalled and the [killed] flag of
    its handle is set; once the process has emitted ['exit'] the signal
    cannot be delivered any more, [kill()] returns false and the handle
    is left as it is. *)
Definition kill (w : World) (p : ChildProcess) : World * ChildProcess :=
  if isRunning (pid p) (host w)
  then (onHost (signal (pid p)) w, mkChild (pid p) true)
  else (w, p).

(** The body of the loop of [stop]: [if (!p.killed) p.kill()]. *)
Definition killIfAlive (w : World) (p : ChildProcess) : World * ChildProcess :=
  if negb (killed p) then kill w p else (w, p).

Fixpoint killAll (ps : list ChildProcess) (w : World)
    : World * list ChildProcess :=
  match ps with
  | [] => (w, [])
  | p :: r =>
      let '(w1, p1) := killIfAlive w p in
      let '(w2, r2) := killAll r w1 in
      (w2, p1 :: r2)
  end.

Definition stop (w : World) : World :=
  match timer (self w) with
  | Some t =>
      let w := onHost (clearTimeout t) w in
      let '(w, ps) := killAll (runningPings (self w)) w in
      onSelf (set_runningPings ps) w
  | None => w
  end.

(* ================================================================== *)
(** ** Host events and the handlers the class registered for them *)
(* ================================================================== *)

Inductive HostEvent : Type :=
| TimerFired (t : Timer)
| ProcError (n : nat) (error : string)   (* 'error' on the process, with
                                            the error the host passes *)
| ProcExit (n : nat) (code : option Z)   (* 'exit'; [None] is a null code *)
| StdoutData (n : nat)                   (* 'data' on process.stdout *)
| StderrData (n : nat)                   (* 'data' on process.stderr *)
| ProcClose (n : nat).                   (* 'close' on the process *)

(** What a handler leaves behind: the world, or an exception that nothing
    catches (the [throw] statements of the handlers), given by its
    message. *)
Inductive Outcome : Type :=
| Running (w : World)
| Uncaught (msg : string) (w : World).

Definition runNext (next : option Next) (w : World) : World :=
  match next with
  | Some ScanForAllDevices => scanForAllDevices w
  | None => w
  end.

Definition runCallback (callback : option Callback) (r : PingResult)
    (w : World) : World :=
  match callback with
  | Some OnPingResult => onPingResult r w
  | None => w
  end.

(** [_.remove(this.runningPings, p => p.pid == process.pid)]. *)
Definition untrack (n : nat) (b : btPresence) : btPresence :=
  set_runningPings
    (filter (fun p => negb (Nat.eqb (pid p) n)) (runningPings b)) b.

Definition isPending (t : Timer) (h : Host) : bool :=
  existsb (fun e => Nat.eqb (fst e) t) (pendingTimers h).

Definition deliver (e : HostEvent) (w : World) : Outcome :=
  match e with
  | TimerFired t =>
      if isPending t (host w)
      then Running (scanForAllDevices (onHost (clearTimeout t) w))
      else Running w
  | ProcError n error =>
      match lookupProc n (host w) with
      | Some (WhichL2ping _) =>
          Uncaught error (onHost (logError "Error trying to locate l2ping: ") w)
      | Some (L2ping _ _ _ _) =>
          Uncaught error (onHost (logError "Error running l2ping: ") w)
      | None => Running w
      end
  | ProcExit n code =>
      match lookupProc n (host w) with
      | Some (WhichL2ping next) =>
          let avail := match code with Some c => c =? 0 | None => false end in
          let w := onHost (reap n) (onSelf (set_isL2PingAvailable avail) w) in
          if isL2PingAvailable (self w) then Running (runNext next w)
          else Uncaught "dependency l2ping is not installed on the local system or is not on the PATH" w
      | Some (L2ping _ _ _ _) => Running (onHost (markExited n) w)
      | None => Running w
      end
  | StdoutData n =>
      match lookupProc n (host w) with
      | Some (L2ping _ _ macAddress callback) =>
          Running (runCallback callback (mkResult macAddress true) w)
      | _ => Running w
      end
  | StderrData n =>
      match lookupProc n (host w) with
      | Some (L2ping _ _ macAddress callback) =>
          Running (runCallback callback (mkResult macAddress false) w)
      | _ => Running w
      end
  | ProcClose n =>
      match lookupProc n (host w) with
      | Some (L2ping _ _ _ _) => Running (onHost (reap n) (onSelf (untrack n) w))
      | _ => Running w
      end
  end.

(** A run of the event loop: events are handled one after the other until
    a handler throws. *)
Fixpoint deliverAll (es : list HostEvent) (w : World) : Outcome :=
  match es with
  | [] => Running w
  | e :: r =>
      match deliver e w with
      | Running w' => deliverAll r w'
      | Uncaught msg w' => Uncaught msg w'
      end
  end.

(* ================================================================== *)
(** ** Vocabulary of the statements *)
(* ================================================================== *)

(** "Lower-cased", said without [toLower]: [a] is [x] with every
    upper-case letter replaced by the letter 32 places further up and
    every other character kept. *)
Fixpoint lowerCaseOf (x a : string) : Prop :=
  match x, a with
  | EmptyString, EmptyString => True
  | String c x', String d a' =>
      (if Lodash.isUpper c
       then nat_of_ascii d = (nat_of_ascii c + 32)%nat
       else d = c)
      /\ lowerCaseOf x' a'
  | _, _ => False
  end.

(** Some character of the string is an upper-case letter. *)
Fixpoint hasUpper (s : string) : bool :=
  match s with
  | EmptyString => false
  | String c r => Lodash.isUpper c || hasUpper r
  end.

(** The emissions a call appended to the emitter's log. *)
Definition emittedSince (w w' : World) (es : list Emission) : Prop :=
  emitted (host w') = emitted (host w) ++ es.

Definition isAggregate (e : Emission) : bool :=
  match event e with
  | EvPingResult _ => false
  | EvPresent _ | EvNotPresent _ => true
  end.

(** The results handed to [onPingResult] so far, oldest first: each call
    leaves exactly one [ping-result] emission. *)
Definition pingResults (h : Host) : list PingResult :=
  flat_map (fun e => match event e with
                     | EvPingResult r => [r]
                     | _ => []
                     end) (emitted h).

(** Pids are handed out in increasing order. *)
Definition freshPids (h : Host) : Prop :=
  forall e, In e (procs h) -> (fst e < nextPid h)%nat.

(** A chunk of output of process [n]: on stdout ([true]) or on stderr. *)
Definition chunkEvent (n : nat) (onStdout : bool) : HostEvent :=
  if onStdout then StdoutData n else StderrData n.

(** A first run that consumes the latch, then a stop and a restart with
    the argument left out: one registered device, [which] exits 0, the
    probe (pid 2) answers on stderr, [stop()], [start()]. *)
Definition restartRun : Outcome :=
  let w := onSelf (setDevices ["AA:01"]) newWorld in
  match deliverAll [ProcExit 1 (Some 0); StderrData 2; ProcClose 2]
                   (start None w) with
  | Running w => Running (start None (stop w))
  | Uncaught msg w => Uncaught msg w
  end.

(** The dispatch loop of [scanForAllDevices]. *)
Definition pingEach (macs : list string) (w : World) : World :=
  fold_left (fun w macAddress =>
               pingBluetoothDevice macAddress (Some OnPingResult) w) macs w.

(** The processes a scan tick spawns for [macs], first pid [n]. *)
Definition probesFor (opts : L2pingOptions) (n : nat) (macs : list string)
    : list (nat * Proc) :=
  combine (seq n (List.length macs))
          (map (fun m => L2ping (count opts) (timeoutSecs opts) m
                                (Some OnPingResult)) macs).

Definition handlesFor (n : nat) (macs : list string) : list ChildProcess :=
  map (fun k => mkChild k false) (seq n (List.length macs)).

(** The [which l2ping] lookups spawned so far whose handlers are live. *)
Definition isWhich (e : nat * Proc) : bool :=
  match snd e with
  | WhichL2ping _ => true
  | L2ping _ _ _ _ => false
  end.

Definition whichProcs (h : Host) : list (nat * Proc) :=
  filter isWhich (procs h).

Definition latched (reportFirst : option bool) (w : World) : World :=
  match reportFirst with
  | Some v => onSelf (set_reportFirstResult v) w
  | None => w
  end.

(** The message of the error thrown when [which] does not exit with 0. *)
Definition notInstalled : string :=
  "dependency l2ping is not installed on the local system or is not on the PATH".

(** The only armed timer, if any, is the one held in [this.timer]. *)
Definition armedOnce (w : World) : Prop :=
  forall e, In e (pendingTimers (host w)) -> timer (self w) = Some (fst e).

(** Every handle of the pool is a probe whose handlers are still live. *)
Definition poolTracked (w : World) : Prop :=
  forall p, In p (runningPings (self w)) ->
    exists c t m cb, lookupProc (pid p) (host w) = Some (L2ping c t m cb).

Definition markKilled (p : ChildProcess) : ChildProcess := mkChild (pid p) true.

(** [stop] gets through to a handle: it is not yet killed and its process
    is still running. *)
Definition reachedByKill (h : Host) (p : ChildProcess) : bool :=
  negb (killed p) && isRunning (pid p) h.

(** A handle after the loop of [stop]. *)
Definition afterKill (h : Host) (p : ChildProcess) : ChildProcess :=
  if reachedByKill h p then markKilled p else p.

(** The state the spec's scenario stops: two registered devices, [start],
    [which] exits with 0, the first scan tick has dispatched its probes
    (pids 2 and 3) and armed the timer. *)
Definition scanningWorld : World :=
  match deliver (ProcExit 1 (Some 0))
                (start None (onSelf (setDevices ["AA:01"; "bb:02"]) newWorld))
  with
  | Running w => w
  | Uncaught _ w => w
  end.


(** What the caller and the host can do to a started instance.  A second
    [start] is left out on purpose: it would open a second timer chain. *)
Inductive Action : Type :=
| Host_ (e : HostEvent)
| CallStop
| CallAddDevices (a : option (list string))
| CallRemoveDevices (a : option (list string))
| CallSetDevices (a : list string)
| CallSetPingOptions (o : L2pingOptions)
| CallSetIntervalSeconds (s : option Z).

Definition act (a : Action) (w : World) : Outcome :=
  match a with
  | Host_ e => deliver e w
  | CallStop => Running (stop w)
  | CallAddDevices l => Running (onSelf (addDevices l) w)
  | CallRemoveDevices l => Running (onSelf (removeDevices l) w)
  | CallSetDevices l => Running (onSelf (setDevices l) w)
  | CallSetPingOptions o => Running (onSelf (setPingOptions o) w)
  | CallSetIntervalSeconds s => Running (onSelf (setIntervalSeconds s) w)
  end.

Fixpoint actAll (l : list Action) (w : World) : Outcome :=
  match l with
  | [] => Running w
  | a :: r =>
      match act a w with
      | Running w' => actAll r w'
      | Uncaught msg w' => Uncaught msg w'
      end
  end.

Definition worldOf (o : Outcome) : World :=
  match o with
  | Running w => w
  | Uncaught _ w => w
  end.

(** Timer chains alive: armed timers plus [which] lookups that will start
    one when they exit. *)
Definition chains (w : World) : nat :=
  (List.length (pendingTimers (host w))
   + List.length (whichProcs (host w)))%nat.

Definition wellFormed (w : World) : Prop :=
  freshPids (host w) /\ poolTracked w /\ armedOnce w /\ (chains w <= 1)%nat.

(** The registry in normal form: no duplicates, every entry lower-case. *)
Definition regOk (b : btPresence) : Prop :=
  NoDup (btDevicesToPing b)
  /\ forall a, In a (btDevicesToPing b) -> Lodash.toLower a = a.

(** Options a probe can be run with: both fields truthy numbers. *)
Definition optsOk (o : L2pingOptions) : Prop :=
  truthy (count o) = true /\ truthy (timeoutSecs o) = true.

(** The arguments a spawned process was given are usable. *)
Definition procArgsOk (e : nat * Proc) : Prop :=
  match snd e with
  | L2ping c t _ _ => truthy c = true /\ truthy t = true
  | WhichL2ping _ => True
  end.

(** The collective signal: somebody is present. *)
Definition anyPresent (w : World) : bool :=
  (0 <? List.length (btDevicesPresent (self w)))%nat.

(** Everything that can happen to an instance: a host event or a call of
    a public method, [start] and [onPingResult] included. *)
Inductive Step : Type :=
| Act (a : Action)
| CallStart (reportFirst : option bool)
| CallOnPingResult (r : PingResult).

Definition step (s : Step) (w : World) : Outcome :=
  match s with
  | Act a => act a w
  | CallStart reportFirst => Running (start reportFirst w)
  | CallOnPingResult r => Running (onPingResult r w)
  end.

Fixpoint stepAll (l : list Step) (w : World) : Outcome :=
  match l with
  | [] => Running w
  | s :: r =>
      match step s w with
      | Running w' => stepAll r w'
      | Uncaught msg w' => Uncaught msg w'
      end
  end.

(** The data the instance holds is in good shape: registry in normal
    form, usable options, duplicate-free presence list, and every live
    process was spawned with usable arguments. *)
Definition configOk (w : World) : Prop :=
  regOk (self w)
  /\ optsOk (l2pingOptions (self w))
  /\ NoDup (btDevicesPresent (self w))
  /\ Forall procArgsOk (procs (host w)).

(** The kind of the most recent aggregate event of a log: [Some true] for
    [present], [Some false] for [not-present], [acc] if there is none. *)
Fixpoint lastAggregate (es : list Emission) (acc : option bool)
    : option bool :=
  match es with
  | [] => acc
  | e :: r =>
      lastAggregate r (match event e with
                       | EvPresent _ => Some true
                       | EvNotPresent _ => Some false
                       | EvPingResult _ => acc
                       end)
  end.

(** What a subscriber of the aggregate events believes agrees with the
    presence list: the last aggregate event says [present] exactly when
    somebody is present, and as long as none was raised nobody is. *)
Definition inSync (w : World) : Prop :=
  match lastAggregate (emitted (host w)) None with
  | Some v => anyPresent w = v
  | None => anyPresent w = false
  end.

(** Every address in the presence list was announced by a positive
    [ping-result]. *)
Definition presentLogged (w : World) : Prop :=
  forall a, In a (btDevicesPresent (self w)) ->
            In (mkResult a true) (pingResults (host w)).

(** No live probe targets [a]. *)
Definition notProbed (a : string) (e : nat * Proc) : Prop :=
  match snd e with
  | L2ping _ _ m _ => m <> a
  | WhichL2ping _ => True
  end.

(** [a] is believed present although it is neither registered nor being
    probed. *)
Definition stale (a : string) (w : World) : Prop :=
  In a (btDevicesPresent (self w))
  /\ ~ In a (btDevicesToPing (self w))
  /\ Forall (notProbed a) (procs (host w)).

(** One device registered, found present by its probe, and taken out of
    the registry after the probe closed. *)
Definition staleWorld : World :=
  worldOf (actAll [ Host_ (ProcExit 1 (Some 0)); Host_ (StdoutData 2);
                    Host_ (ProcClose 2); CallRemoveDevices (Some ["AA:01"]) ]
                  (start None (onSelf (setDevices ["AA:01"]) newWorld))).

(* ================================================================== *)
(** ** Facts about the lodash helpers *)
(* ================================================================== *)

Section LodashFacts.
Import Lodash.

Lemma includes_In (l : list string) (x : string) :
  includes l x = true <-> In x l.
Proof.
  unfold includes. rewrite existsb_exists. split.
  - intros [y [Hy He]]. apply String.eqb_eq in He. now subst.
  - intros H. exists x. split; [assumption | apply String.eqb_refl].
Qed.

Lemma includes_not_In (l : list string) (x : string) :
  includes l x = false <-> ~ In x l.
Proof.
  rewrite <- includes_In. destruct (includes l x); split; congruence.
Qed.

Lemma baseUniq_In (l seen : list string) (x : string) :
  In x (baseUniq seen l) <-> In x l /\ ~ In x seen.
Proof.
  revert seen. induction l as [|y r IH]; intros seen; simpl.
  - tauto.
  - destruct (includes seen y) eqn:E.
    + apply includes_In in E. rewrite IH. split.
      * tauto.
      * intros [[->|Hr] Hs]; [contradiction | tauto].
    + apply includes_not_In in E. simpl. rewrite IH. simpl. split.
      * intros [->|[Hr Hs]]; [tauto|]. split; [tauto|]. intros Hx. apply Hs. now right.
      * intros [[->|Hr] Hs]; [now left|].
        destruct (String.eqb_spec y x) as [->|Hne]; [now left|].
        right. split; [assumption|]. intros [Hy|Hx]; [congruence|contradiction].
Qed.

Lemma baseUniq_NoDup (l seen : list string) : NoDup (baseUniq seen l).
Proof.
  revert seen. induction l as [|y r IH]; intros seen; simpl.
  - constructor.
  - destruct (includes seen y) eqn:E; [apply IH|].
    constructor; [|apply IH].
    rewrite baseUniq_In. intros [_ H]. apply H. now left.
Qed.

Lemma uniq_In (l : list string) (x : string) : In x (uniq l) <-> In x l.
Proof. unfold uniq. rewrite baseUniq_In. simpl. tauto. Qed.

Lemma uniq_NoDup (l : list string) : NoDup (uniq l).
Proof. apply baseUniq_NoDup. Qed.

Lemma lowerAscii_idem (c : ascii) : lowerAscii (lowerAscii c) = lowerAscii c.
Proof.
  destruct c as [[] [] [] [] [] [] [] []]; reflexivity.
Qed.

Lemma toLower_idem (s : string) : toLower (toLower s) = toLower s.
Proof.
  induction s as [|c r IH]; simpl; [reflexivity|].
  now rewrite lowerAscii_idem, IH.
Qed.

End LodashFacts.

(* ================================================================== *)
(** ** Device registry and options store: the theorems *)
(* ================================================================== *)

Lemma isUpper_lowerAscii (c : ascii) :
  Lodash.isUpper (Lodash.lowerAscii c) = false.
Proof.
  destruct c as [[] [] [] [] [] [] [] []]; reflexivity.
Qed.

Lemma hasUpper_toLower (x : string) : hasUpper (Lodash.toLower x) = false.
Proof.
  induction x as [|c r IH]; simpl; [reflexivity|].
  now rewrite isUpper_lowerAscii, IH.
Qed.

Lemma isUpper_bound (c : ascii) :
  Lodash.isUpper c = true -> (nat_of_ascii c + 32 < 256)%nat.
Proof.
  unfold Lodash.isUpper. intros H.
  apply orb_true_iff in H. destruct H as [H|H].
  - apply andb_true_iff in H. destruct H as [_ H]. apply Nat.leb_le in H. lia.
  - apply andb_true_iff in H. destruct H as [H _].
    apply andb_true_iff in H. destruct H as [_ H]. apply Nat.leb_le in H. lia.
Qed.

(** [toLower] computes the lower-cased form, and nothing else is one. *)
Lemma lowerCaseOf_toLower (x a : string) :
  lowerCaseOf x a <-> a = Lodash.toLower x.
Proof.
  revert a. induction x as [|c r IH]; intros [|d a]; simpl;
    try (split; [intros [] | discriminate]); [tauto|].
  rewrite IH. unfold Lodash.lowerAscii.
  destruct (Lodash.isUpper c) eqn:Eu.
  - split.
    + intros [Hd ->]. f_equal.
      now rewrite <- Hd, ascii_nat_embedding.
    + intros [= -> ->]. split; [|reflexivity].
      apply nat_ascii_embedding. now apply isUpper_bound.
  - split; [intros [-> ->]; reflexivity | intros [= -> ->]; now split].
Qed.

(** C8.  Whatever the registry held before, [setDevices X] followed by
    [getDevices] returns a duplicate-free list whose members are exactly
    the lower-cased forms of the members of [X]: every upper-case letter
    replaced by its lower-case letter, so that no entry holds an
    upper-case letter and spellings that differ in case only collapse
    into one entry, as in the mixed-case instance.  A [setDevices [A]]
    issued after [addDevices [B]] leaves the one-element list holding
    the lower-cased [A]. *)
Theorem setDevices_getDevices_roundtrip (X : list string) (b : btPresence) :
  let r := getDevices (setDevices X b) in
  NoDup r
  /\ (forall a, In a r <-> exists x, In x X /\ a = Lodash.toLower x)
  /\ (forall a, In a r -> Lodash.toLower a = a)
  /\ (forall A B,
        getDevices (setDevices [A] (addDevices (Some [B]) b))
        = [Lodash.toLower A])
  /\ (forall a, In a r <-> exists x, In x X /\ lowerCaseOf x a)
  /\ (forall a, In a r -> hasUpper a = false)
  /\ getDevices (setDevices ["AA:bb:0C"; "aa:BB:0c"; "11:22:33"; "aa:bb:0c"]
                            (addDevices (Some ["FF:FF"]) b))
     = ["aa:bb:0c"; "11:22:33"].
Proof.
  cbv zeta. unfold getDevices, setDevices. simpl.
  assert (Hmem : forall a, In a (Lodash.uniq (map Lodash.toLower X))
                      <-> exists x, In x X /\ a = Lodash.toLower x).
  { intros a. rewrite uniq_In, in_map_iff. split.
    - intros [x [E H]]. exists x. now split.
    - intros [x [H E]]. exists x. now split. }
  split; [apply uniq_NoDup|]. split; [exact Hmem|]. split.
  { intros a Ha. apply Hmem in Ha. destruct Ha as [x [_ ->]].
    apply toLower_idem. }
  split; [intros A B; reflexivity|]. split.
  { intros a. rewrite Hmem. split; intros [x [Hx Ha]]; exists x;
      (split; [exact Hx | now apply lowerCaseOf_toLower]). }
  split; [|reflexivity].
  intros a Ha. apply Hmem in Ha. destruct Ha as [x [_ ->]].
  apply hasUpper_toLower.
Qed.

(** C6.  [setPingOptions] stores a struct computed from its argument
    alone: a falsy [count] becomes 1, a falsy [timeoutSecs] becomes 5, a
    truthy field is kept, and the previously stored options play no
    part. *)
Theorem setPingOptions_falsy_fields_default (options : L2pingOptions)
    (b : btPresence) :
  let stored := getPingOptions (setPingOptions options b) in
  (truthy (count options) = false -> count stored = JsNumber 1)
  /\ (truthy (timeoutSecs options) = false -> timeoutSecs stored = JsNumber 5)
  /\ (truthy (count options) = true -> count stored = count options)
  /\ (truthy (timeoutSecs options) = true
      -> timeoutSecs stored = timeoutSecs options)
  /\ (forall b', getPingOptions (setPingOptions options b') = stored).
Proof.
  cbv zeta. unfold getPingOptions, setPingOptions. simpl.
  repeat split; try (intros H; now rewrite H).
Qed.

(** The spec's example: [{count: 0, timeoutSecs: undefined}] stored over
    previously set options [{count: 3, timeoutSecs: 8}]. *)
Lemma setPingOptions_falsy_fields_default_witness :
  getPingOptions
    (setPingOptions {| count := JsNumber 0; timeoutSecs := JsUndefined |}
       (setPingOptions {| count := JsNumber 3; timeoutSecs := JsNumber 8 |}
          newBt))
  = {| count := JsNumber 1; timeoutSecs := JsNumber 5 |}.
Proof.
  pose proof (setPingOptions_falsy_fields_default
                {| count := JsNumber 0; timeoutSecs := JsUndefined |}
                (setPingOptions
                   {| count := JsNumber 3; timeoutSecs := JsNumber 8 |} newBt))
    as [Hc [Ht _]].
  specialize (Hc eq_refl). specialize (Ht eq_refl).
  destruct (getPingOptions _) as [c t]. simpl in *. now subst.
Defined.

(** C7, as stated, fails at zero: a zero [count] or [timeoutSecs] is not
    stored as it is, the defaults take its place. *)
Lemma setPingOptions_zero_not_stored :
  getPingOptions
    (setPingOptions {| count := JsNumber 0; timeoutSecs := JsNumber 0 |} newBt)
  <> {| count := JsNumber 0; timeoutSecs := JsNumber 0 |}.
Proof. discriminate. Qed.

(** C7, amended.  Nothing is ever rejected; a negative [count] or
    [timeoutSecs] is stored as it is, whatever the other field holds,
    while a zero is replaced by the default of its field. *)
Theorem setPingOptions_negative_stored_as_is (z : Z) (other : JsNum)
    (b : btPresence) (Hneg : z < 0) :
  count (getPingOptions
           (setPingOptions {| count := JsNumber z; timeoutSecs := other |} b))
  = JsNumber z
  /\ timeoutSecs (getPingOptions
           (setPingOptions {| count := other; timeoutSecs := JsNumber z |} b))
  = JsNumber z
  /\ count (getPingOptions
           (setPingOptions {| count := JsNumber 0; timeoutSecs := other |} b))
  = JsNumber 1
  /\ timeoutSecs (getPingOptions
           (setPingOptions {| count := other; timeoutSecs := JsNumber 0 |} b))
  = JsNumber 5.
Proof.
  unfold getPingOptions, setPingOptions. simpl.
  replace (z =? 0) with false by (symmetry; apply Z.eqb_neq; lia).
  repeat split.
Qed.

Lemma setPingOptions_negative_stored_as_is_witness :
  -2 < 0
  /\ count (getPingOptions
       (setPingOptions {| count := JsNumber (-2); timeoutSecs := JsNumber 0 |}
                       newBt)) = JsNumber (-2)
  /\ timeoutSecs (getPingOptions
       (setPingOptions {| count := JsNumber 0; timeoutSecs := JsNumber (-2) |}
                       newBt)) = JsNumber (-2).
Proof.
  split; [lia|].
  destruct (setPingOptions_negative_stored_as_is (-2) (JsNumber 0) newBt)
    as [Hc [Ht _]]; [lia | now split].
Defined.

(* ================================================================== *)
(** ** Presence aggregator: the theorems *)
(* ================================================================== *)

(** Every processed result is first surfaced as [ping-result], seen by
    its listeners with the presence list not yet updated; only aggregate
    events (at most one) follow. *)
Lemma onPingResult_emits_raw_first (r : PingResult) (w : World) :
  exists rest,
    emittedSince w (onPingResult r w)
      (mkEmission (EvPingResult r) (btDevicesPresent (self w)) :: rest)
    /\ forallb isAggregate rest = true
    /\ (List.length rest <= 1)%nat.
Proof.
  unfold emittedSince, onPingResult.
  destruct (isPresent r);
    match goal with
    | |- context [if (0 <? List.length ?l)%nat then _ else _] =>
        destruct (0 <? List.length l)%nat
    end;
    match goal with
    | |- context [if ?c then emit _ _ else _] => destruct c
    end; simpl;
    (eexists; split;
       [ rewrite <- ?app_assoc; simpl; reflexivity
       | split; [reflexivity | simpl; lia] ]).
Qed.

(** C1.  With the latch set and nobody present, a first negative result
    for [addrA] is announced as [ping-result] and then [not-present addrA]
    although the presence list stays empty; the next negative result, for
    whichever device, is announced as [ping-result] only. *)
Theorem first_result_latch (w : World) (addrA addrB : string)
    (Hlatch : reportFirstResult (self w) = true)
    (Hempty : btDevicesPresent (self w) = []) :
  let w1 := onPingResult (mkResult addrA false) w in
  let w2 := onPingResult (mkResult addrB false) w1 in
  emittedSince w w1
    [ mkEmission (EvPingResult (mkResult addrA false)) [];
      mkEmission (EvNotPresent addrA) [] ]
  /\ btDevicesPresent (self w1) = []
  /\ reportFirstResult (self w1) = false
  /\ emittedSince w1 w2 [ mkEmission (EvPingResult (mkResult addrB false)) [] ]
  /\ btDevicesPresent (self w2) = [].
Proof.
  destruct w as [[toPing present secs avail tm latch pool opts] h].
  simpl in Hlatch, Hempty. subst latch present.
  cbv zeta. unfold emittedSince, onPingResult. simpl.
  rewrite <- app_assoc. repeat split; reflexivity.
Qed.

Lemma first_result_latch_witness :
  let w1 := onPingResult (mkResult "aa:01" false) newWorld in
  let w2 := onPingResult (mkResult "bb:02" false) w1 in
  map event (emitted (host w1))
  = [ EvPingResult (mkResult "aa:01" false); EvNotPresent "aa:01" ]
  /\ map event (emitted (host w2))
     = [ EvPingResult (mkResult "aa:01" false); EvNotPresent "aa:01";
         EvPingResult (mkResult "bb:02" false) ].
Proof.
  destruct (first_result_latch newWorld "aa:01" "bb:02" eq_refl eq_refl)
    as [H1 [_ [_ [H2 _]]]].
  cbv zeta. unfold emittedSince in *. rewrite H2, H1. split; reflexivity.
Defined.

(** C2.  With the latch consumed and nobody present, a positive result
    for [addrA] is announced as [ping-result] and then [present addrA];
    a following positive result for [addrB] is announced as [ping-result]
    only, before the presence list is touched.  And in every state, every
    result at all is announced as [ping-result] first. *)
Theorem rising_edge_once (w : World) (addrA addrB : string)
    (Hlatch : reportFirstResult (self w) = false)
    (Hempty : btDevicesPresent (self w) = []) :
  let w1 := onPingResult (mkResult addrA true) w in
  let w2 := onPingResult (mkResult addrB true) w1 in
  emittedSince w w1
    [ mkEmission (EvPingResult (mkResult addrA true)) [];
      mkEmission (EvPresent addrA) [addrA] ]
  /\ btDevicesPresent (self w1) = [addrA]
  /\ emittedSince w1 w2
       [ mkEmission (EvPingResult (mkResult addrB true)) [addrA] ]
  /\ In addrA (btDevicesPresent (self w2))
  /\ (forall r w0, exists rest,
        emittedSince w0 (onPingResult r w0)
          (mkEmission (EvPingResult r) (btDevicesPresent (self w0)) :: rest)
        /\ forallb isAggregate rest = true).
Proof.
  destruct w as [[toPing present secs avail tm latch pool opts] h].
  simpl in Hlatch, Hempty. subst latch present.
  cbv zeta.
  assert (Hraw : forall r w0, exists rest,
            emittedSince w0 (onPingResult r w0)
              (mkEmission (EvPingResult r) (btDevicesPresent (self w0)) :: rest)
            /\ forallb isAggregate rest = true).
  { intros r w0. destruct (onPingResult_emits_raw_first r w0)
      as [rest [Ha [Hb _]]]. now exists rest. }
  unfold emittedSince, onPingResult. simpl.
  unfold Lodash.includes. simpl.
  rewrite <- app_assoc.
  split; [reflexivity|]. split; [reflexivity|].
  split; [|split; [|exact Hraw]];
    destruct (String.eqb addrB addrA); simpl; auto.
Qed.

Lemma rising_edge_once_witness :
  let w0 := onSelf (set_reportFirstResult false) newWorld in
  let w1 := onPingResult (mkResult "aa:01" true) w0 in
  let w2 := onPingResult (mkResult "bb:02" true) w1 in
  map event (emitted (host w2))
  = [ EvPingResult (mkResult "aa:01" true); EvPresent "aa:01";
      EvPingResult (mkResult "bb:02" true) ].
Proof.
  destruct (rising_edge_once (onSelf (set_reportFirstResult false) newWorld)
              "aa:01" "bb:02" eq_refl eq_refl)
    as [H1 [_ [H2 _]]].
  cbv zeta. unfold emittedSince in *. rewrite H2, H1. reflexivity.
Defined.

(* ================================================================== *)
(** ** Probe runner: the theorems *)
(* ================================================================== *)

Lemma find_app_fresh (n : nat) (p : Proc) (l : list (nat * Proc)) :
  (forall e, In e l -> (fst e < n)%nat) ->
  find (fun e => Nat.eqb (fst e) n) (l ++ [(n, p)]) = Some (n, p).
Proof.
  induction l as [|e r IH]; intros H; simpl.
  - now rewrite Nat.eqb_refl.
  - replace (fst e =? n)%nat with false.
    + apply IH. intros e' He'. apply H. now right.
    + symmetry. apply Nat.eqb_neq. specialize (H e (or_introl eq_refl)). lia.
Qed.

Lemma lookupProc_spawn (p : Proc) (h : Host) :
  freshPids h -> lookupProc (nextPid h) (snd (spawn p h)) = Some p.
Proof.
  intros H. unfold lookupProc, spawn. simpl.
  now rewrite (find_app_fresh (nextPid h) p (procs h) H).
Qed.

Lemma onPingResult_procs (r : PingResult) (w : World) :
  procs (host (onPingResult r w)) = procs (host w).
Proof.
  unfold onPingResult.
  destruct (isPresent r);
    match goal with
    | |- context [if (0 <? List.length ?l)%nat then _ else _] =>
        destruct (0 <? List.length l)%nat
    end;
    match goal with
    | |- context [if ?c then emit _ _ else _] => destruct c
    end; reflexivity.
Qed.

Lemma pingResults_app (h : Host) (es : list Emission) (h' : Host) :
  emitted h' = emitted h ++ es ->
  pingResults h'
  = pingResults h ++ flat_map (fun e => match event e with
                                        | EvPingResult r => [r]
                                        | _ => []
                                        end) es.
Proof. unfold pingResults. intros ->. apply flat_map_app. Qed.

Lemma flat_map_aggregate_nil (es : list Emission) :
  forallb isAggregate es = true ->
  flat_map (fun e => match event e with
                     | EvPingResult r => [r]
                     | _ => []
                     end) es = [].
Proof.
  induction es as [|e r IH]; simpl; [reflexivity|].
  intros H. apply andb_true_iff in H. destruct H as [He Hr].
  rewrite (IH Hr). unfold isAggregate in He.
  destruct (event e); [discriminate | reflexivity | reflexivity].
Qed.

Lemma onPingResult_pingResults (r : PingResult) (w : World) :
  pingResults (host (onPingResult r w)) = pingResults (host w) ++ [r].
Proof.
  destruct (onPingResult_emits_raw_first r w) as [rest [He [Ha _]]].
  rewrite (pingResults_app _ _ _ He). simpl.
  now rewrite (flat_map_aggregate_nil rest Ha).
Qed.

(** Output chunks of a tracked probe: one call of the sink per chunk. *)
Lemma deliver_chunks (n : nat) (cnt tmo : JsNum) (mac : string)
    (chunks : list bool) :
  forall w,
    lookupProc n (host w) = Some (L2ping cnt tmo mac (Some OnPingResult)) ->
    exists w',
      deliverAll (map (chunkEvent n) chunks) w = Running w'
      /\ lookupProc n (host w') = Some (L2ping cnt tmo mac (Some OnPingResult))
      /\ pingResults (host w')
         = pingResults (host w) ++ map (mkResult mac) chunks.
Proof.
  induction chunks as [|c r IH]; intros w Hw; simpl.
  - exists w. now rewrite app_nil_r.
  - assert (Hstep : deliver (chunkEvent n c) w
                    = Running (onPingResult (mkResult mac c) w)).
    { destruct c; simpl; now rewrite Hw. }
    rewrite Hstep.
    destruct (IH (onPingResult (mkResult mac c) w)) as [w' [Hr [Hl Hp]]].
    { unfold lookupProc in *. now rewrite onPingResult_procs. }
    exists w'. split; [exact Hr|]. split; [exact Hl|].
    rewrite Hp, onPingResult_pingResults, <- app_assoc. reflexivity.
Qed.

Lemma deliverAll_app (es1 es2 : list HostEvent) (w w1 : World) :
  deliverAll es1 w = Running w1 ->
  deliverAll (es1 ++ es2) w = deliverAll es2 w1.
Proof.
  revert w. induction es1 as [|e r IH]; intros w; simpl.
  - now intros [= ->].
  - destruct (deliver e w); [apply IH | discriminate].
Qed.

(** C3, as stated, fails in both directions: a probe whose process closes
    without output reports nothing, and a probe whose process writes two
    chunks reports twice (here once present and once absent). *)
Lemma probe_reports_zero_or_twice :
  let w1 := pingBluetoothDevice "aa:01" (Some OnPingResult) newWorld in
  (exists w2, deliverAll [ProcClose 1] w1 = Running w2
              /\ pingResults (host w2) = [])
  /\ (exists w2, deliverAll [StdoutData 1; StderrData 1; ProcClose 1] w1
                 = Running w2
                 /\ pingResults (host w2)
                    = [mkResult "aa:01" true; mkResult "aa:01" false]).
Proof.
  cbv zeta. split; eexists; split; reflexivity.
Qed.

(** C3, amended.  A probe reports once per chunk of output of its
    process, in order: [isPresent = true] for a chunk on stdout, [false]
    for a chunk on stderr.  It reports exactly once exactly when the
    process writes exactly one chunk before it closes. *)
Theorem probe_reports_once_per_chunk (w : World) (mac : string)
    (chunks : list bool) (Hfresh : freshPids (host w)) :
  let n := nextPid (host w) in
  let w1 := pingBluetoothDevice mac (Some OnPingResult) w in
  exists w2,
    deliverAll (map (chunkEvent n) chunks ++ [ProcClose n]) w1 = Running w2
    /\ pingResults (host w2)
       = pingResults (host w) ++ map (mkResult mac) chunks.
Proof.
  cbv zeta.
  set (w1 := pingBluetoothDevice mac (Some OnPingResult) w).
  assert (Hl : lookupProc (nextPid (host w)) (host w1)
               = Some (L2ping (count (l2pingOptions (self w)))
                              (timeoutSecs (l2pingOptions (self w)))
                              mac (Some OnPingResult))).
  { unfold w1, pingBluetoothDevice.
    apply (lookupProc_spawn _ (host w) Hfresh). }
  destruct (deliver_chunks _ _ _ _ chunks w1 Hl) as [w' [Hr [Hl' Hp]]].
  rewrite (deliverAll_app _ [ProcClose (nextPid (host w))] _ _ Hr).
  simpl. rewrite Hl'. eexists. split; [reflexivity|].
  simpl. exact Hp.
Qed.

Lemma probe_reports_once_per_chunk_witness :
  exists w2,
    deliverAll [StdoutData 1; ProcClose 1]
      (pingBluetoothDevice "aa:01" (Some OnPingResult) newWorld) = Running w2
    /\ pingResults (host w2) = [mkResult "aa:01" true].
Proof.
  apply (probe_reports_once_per_chunk newWorld "aa:01" [true]).
  intros e He. destruct He.
Defined.

(* ================================================================== *)
(** ** Scan scheduler and availability gate: the theorems *)
(* ================================================================== *)

(** C10.  While [this.timer] is still undefined, [stop] leaves the
    instance and the host exactly as they are: no timer is cleared, no
    process is signalled, no field changes. *)
Theorem stop_before_start_is_noop (w : World)
    (Htimer : timer (self w) = None) :
  stop w = w.
Proof. unfold stop. now rewrite Htimer. Qed.

Lemma stop_before_start_is_noop_witness :
  timer (self newWorld) = None
  /\ stop (onSelf (addDevices (Some ["AA:01"])) newWorld)
     = onSelf (addDevices (Some ["AA:01"])) newWorld.
Proof.
  split; [reflexivity|].
  apply (stop_before_start_is_noop
           (onSelf (addDevices (Some ["AA:01"])) newWorld)).
  reflexivity.
Defined.

Lemma pingEach_eq (macs : list string) (w : World) :
  pingEach macs w
  = {| self := set_runningPings
                 (runningPings (self w) ++ handlesFor (nextPid (host w)) macs)
                 (self w);
       host := mkHost (pendingTimers (host w)) (nextTimer (host w))
                      (nextPid (host w) + List.length macs)
                      (procs (host w)
                       ++ probesFor (l2pingOptions (self w))
                                    (nextPid (host w)) macs)
                      (signals (host w)) (emitted (host w))
                      (exited (host w)) (console (host w)) |}.
Proof.
  revert w. induction macs as [|m r IH]; intros [b h].
  - destruct b, h. unfold pingEach, handlesFor, probesFor, set_runningPings.
    simpl. now rewrite !app_nil_r, Nat.add_0_r.
  - unfold pingEach in *. simpl fold_left. rewrite IH. clear IH.
    destruct b, h. unfold handlesFor, probesFor, set_runningPings,
      pingBluetoothDevice. simpl.
    rewrite <- !app_assoc. simpl. now rewrite Nat.add_succ_r.
Qed.

Lemma scanForAllDevices_eq (w : World) :
  scanForAllDevices w
  = let w1 := pingEach (btDevicesToPing (self w)) w in
    {| self := set_timer (Some (nextTimer (host w))) (self w1);
       host := snd (setTimeout (scanIntervalSecs (self w) * 1000) (host w1)) |}.
Proof.
  unfold scanForAllDevices.
  assert (E : (if (List.length (btDevicesToPing (self w)) <=? 0)%nat then w
               else fold_left (fun w macAddress =>
                      pingBluetoothDevice macAddress (Some OnPingResult) w)
                      (btDevicesToPing (self w)) w)
              = pingEach (btDevicesToPing (self w)) w).
  { unfold pingEach. destruct (btDevicesToPing (self w)); reflexivity. }
  rewrite E. cbv zeta. rewrite pingEach_eq. reflexivity.
Qed.

Lemma probesFor_not_which (opts : L2pingOptions) (macs : list string) (n : nat) :
  filter isWhich (probesFor opts n macs) = [].
Proof.
  revert n. unfold probesFor.
  induction macs as [|m r IH]; intros n; simpl; [reflexivity | apply IH].
Qed.

Lemma start_eq (reportFirst : option bool) (w : World) :
  start reportFirst w
  = if isL2PingAvailable (self w)
    then scanForAllDevices (latched reportFirst w)
    else checkForL2Ping (Some ScanForAllDevices) (latched reportFirst w).
Proof. unfold start, latched. destruct reportFirst; reflexivity. Qed.

(** [start()] with the argument left out never writes the latch. *)
Lemma start_omitted_latch (w : World) :
  reportFirstResult (self (start None w)) = reportFirstResult (self w).
Proof.
  rewrite start_eq. simpl.
  destruct (isL2PingAvailable (self w)); [|reflexivity].
  rewrite scanForAllDevices_eq. cbv zeta. rewrite pingEach_eq. reflexivity.
Qed.

(** C4 (code defect).  [start()] without argument never writes the latch.
    After a run has consumed it, the restarted scan therefore begins with
    [reportFirstResult = false], and the first result of the new run, a
    negative one with nobody present, is not announced as [not-present]. *)
Theorem restart_without_argument_keeps_latch_consumed :
  (forall w, reportFirstResult (self (start None w))
             = reportFirstResult (self w))
  /\ exists w,
       restartRun = Running w
       /\ reportFirstResult (self w) = false
       /\ btDevicesPresent (self w) = []
       /\ emittedSince w (onPingResult (mkResult "aa:01" false) w)
            [ mkEmission (EvPingResult (mkResult "aa:01" false)) [] ].
Proof.
  split; [exact start_omitted_latch|].
  eexists. split; [reflexivity|]. repeat split; reflexivity.
Qed.

(** C9.  With availability already confirmed, [start] spawns no [which]
    lookup: it dispatches one probe per registered device and arms the
    scan timer at once.  Otherwise it only spawns the lookup (fresh pid
    [n]) and nothing is armed or dispatched; exit code 0 of the lookup
    then confirms availability and runs the scan, while any other exit
    code, or a launch error, ends in an uncaught exception with no timer
    armed and no probe dispatched, and no later event is handled. *)
Theorem start_availability_gate (reportFirst : option bool) (w : World)
    (Hfresh : freshPids (host w)) :
  let w' := start reportFirst w in
  let n := nextPid (host w) in
  let tick := (nextTimer (host w),
               armedDelay (scanIntervalSecs (self w) * 1000)) in
  (isL2PingAvailable (self w) = true ->
     whichProcs (host w') = whichProcs (host w)
     /\ procs (host w')
        = procs (host w)
          ++ probesFor (l2pingOptions (self w)) n (btDevicesToPing (self w))
     /\ timer (self w') = Some (fst tick)
     /\ pendingTimers (host w') = pendingTimers (host w) ++ [tick])
  /\ (isL2PingAvailable (self w) = false ->
     procs (host w')
     = procs (host w) ++ [(n, WhichL2ping (Some ScanForAllDevices))]
     /\ pendingTimers (host w') = pendingTimers (host w)
     /\ timer (self w') = timer (self w)
     /\ runningPings (self w') = runningPings (self w)
     /\ (exists w'',
           deliver (ProcExit n (Some 0)) w' = Running w''
           /\ isL2PingAvailable (self w'') = true
           /\ timer (self w'') = Some (fst tick)
           /\ pendingTimers (host w'') = pendingTimers (host w) ++ [tick]
           /\ List.length (runningPings (self w''))
              = (List.length (runningPings (self w))
                 + List.length (btDevicesToPing (self w)))%nat)
     /\ (forall code es, code <> Some 0 ->
           exists w'',
             deliverAll (ProcExit n code :: es) w' = Uncaught notInstalled w''
             /\ isL2PingAvailable (self w'') = false
             /\ pendingTimers (host w'') = pendingTimers (host w)
             /\ runningPings (self w'') = runningPings (self w)
             /\ nextPid (host w'') = S n)
     /\ (forall error es,
           deliverAll (ProcError n error :: es) w'
           = Uncaught error
               (onHost (logError "Error trying to locate l2ping: ") w'))).
Proof.
  cbv zeta. rewrite start_eq. split; intros Hav; rewrite Hav.
  - rewrite scanForAllDevices_eq. cbv zeta. rewrite pingEach_eq.
    destruct reportFirst; simpl; unfold whichProcs; simpl;
      rewrite filter_app, probesFor_not_which, app_nil_r; auto.
  - set (w0 := latched reportFirst w).
    assert (Hh : host w0 = host w) by (unfold w0; now destruct reportFirst).
    assert (Hb : forall v, set_reportFirstResult v (self w0)
                           = set_reportFirstResult v (self w))
      by (unfold w0; now destruct reportFirst).
    assert (Hl : lookupProc (nextPid (host w))
                   (host (checkForL2Ping (Some ScanForAllDevices) w0))
                 = Some (WhichL2ping (Some ScanForAllDevices))).
    { unfold checkForL2Ping. simpl. rewrite Hh.
      apply (lookupProc_spawn _ (host w) Hfresh). }
    split; [unfold checkForL2Ping; simpl; now rewrite Hh|].
    split; [unfold checkForL2Ping; simpl; now rewrite Hh|].
    split; [unfold w0; now destruct reportFirst|].
    split; [unfold w0; now destruct reportFirst|].
    split; [|split].
    + eexists. split; [unfold deliver; rewrite Hl; simpl; reflexivity|].
      rewrite scanForAllDevices_eq. cbv zeta. rewrite pingEach_eq.
      unfold w0. destruct reportFirst; simpl;
        unfold handlesFor; rewrite length_app, length_map, length_seq; auto.
    + intros code es Hcode.
      assert (Hc : match code with Some c => c =? 0 | None => false end
                   = false).
      { destruct code as [c|]; [|reflexivity].
        apply Z.eqb_neq. intros ->. now apply Hcode. }
      eexists. split.
      * cbn [deliverAll]. unfold deliver. rewrite Hl.
        cbv zeta. simpl. rewrite Hc. reflexivity.
      * simpl. rewrite ?Hh.
        unfold w0. destruct reportFirst; simpl; auto.
    + intros error es. cbn [deliverAll]. unfold deliver. now rewrite Hl.
Qed.

Lemma start_availability_gate_witness :
  let w := onSelf (setDevices ["AA:01"; "bb:02"]) newWorld in
  (exists w'',
     deliver (ProcExit 1 (Some 0)) (start None w) = Running w''
     /\ isL2PingAvailable (self w'') = true
     /\ timer (self w'') = Some 0%nat
     /\ pendingTimers (host w'') = [(0%nat, 15000)]
     /\ List.length (runningPings (self w'')) = 2%nat)
  /\ (exists w'',
        deliverAll [ProcExit 1 (Some 1); TimerFired 0%nat] (start None w)
        = Uncaught notInstalled w''
        /\ isL2PingAvailable (self w'') = false
        /\ pendingTimers (host w'') = []
        /\ runningPings (self w'') = []
        /\ nextPid (host w'') = 2%nat).
Proof.
  cbv zeta.
  destruct (start_availability_gate None
              (onSelf (setDevices ["AA:01"; "bb:02"]) newWorld))
    as [_ Hgate].
  { intros e He. destruct He. }
  destruct (Hgate eq_refl) as [_ [_ [_ [_ [Hok [Hfail _]]]]]].
  split; [exact Hok|].
  apply (Hfail (Some 1) [TimerFired 0%nat]). discriminate.
Defined.

(* ------------------------------------------------------------------ *)
(** *** [stop] *)

Lemma killAll_eq (ps : list ChildProcess) (w : World) :
  killAll ps w
  = ({| self := self w;
        host := mkHost (pendingTimers (host w)) (nextTimer (host w))
                       (nextPid (host w)) (procs (host w))
                       (signals (host w)
                        ++ map pid (filter (reachedByKill (host w)) ps))
                       (emitted (host w)) (exited (host w))
                       (console (host w)) |},
     map (afterKill (host w)) ps).
Proof.
  revert w. induction ps as [|[n k] r IH]; intros [b h]; simpl.
  - destruct h. simpl. now rewrite app_nil_r.
  - unfold killIfAlive, kill, afterKill, reachedByKill. simpl.
    destruct k; simpl.
    + rewrite IH. reflexivity.
    + destruct (isRunning n h) eqn:Er; simpl; rewrite IH; simpl.
      * rewrite <- app_assoc. reflexivity.
      * reflexivity.
Qed.

Lemma stop_eq (w : World) (t : Timer) :
  timer (self w) = Some t ->
  stop w
  = {| self := set_runningPings
                 (map (afterKill (host w)) (runningPings (self w))) (self w);
       host := mkHost
                 (filter (fun e => negb (Nat.eqb (fst e) t))
                         (pendingTimers (host w)))
                 (nextTimer (host w)) (nextPid (host w)) (procs (host w))
                 (signals (host w)
                  ++ map pid (filter (reachedByKill (host w))
                                     (runningPings (self w))))
                 (emitted (host w)) (exited (host w)) (console (host w)) |}.
Proof.
  intros Ht. unfold stop. rewrite Ht. simpl. rewrite killAll_eq. reflexivity.
Qed.

Lemma pid_afterKill (h : Host) (p : ChildProcess) :
  pid (afterKill h p) = pid p.
Proof. unfold afterKill. now destruct (reachedByKill h p). Qed.

Lemma filter_none {A} (f : A -> bool) (l : list A) :
  (forall x, In x l -> f x = false) -> filter f l = [].
Proof.
  induction l as [|x r IH]; intros H; simpl; [reflexivity|].
  rewrite (H x (or_introl eq_refl)). apply IH. intros y Hy. apply H. now right.
Qed.

Lemma filter_all {A} (f : A -> bool) (l : list A) :
  (forall x, In x l -> f x = true) -> filter f l = l.
Proof.
  induction l as [|x r IH]; intros H; simpl; [reflexivity|].
  rewrite (H x (or_introl eq_refl)). f_equal. apply IH.
  intros y Hy. apply H. now right.
Qed.

Lemma find_filter_other (n m : nat) (l : list (nat * Proc)) :
  m <> n ->
  find (fun e => Nat.eqb (fst e) m)
       (filter (fun e => negb (Nat.eqb (fst e) n)) l)
  = find (fun e => Nat.eqb (fst e) m) l.
Proof.
  intros Hne. induction l as [|e r IH]; simpl; [reflexivity|].
  destruct (Nat.eqb_spec (fst e) n) as [E|E]; simpl.
  - replace (fst e =? m)%nat with false; [exact IH|].
    symmetry. apply Nat.eqb_neq. congruence.
  - destruct (fst e =? m)%nat; [reflexivity | exact IH].
Qed.

(** The [close] handler drops the handles of the closed process from the
    pool, and nothing else. *)
Lemma deliver_close (n : nat) (w : World) :
  poolTracked w ->
  exists w',
    deliver (ProcClose n) w = Running w'
    /\ runningPings (self w')
       = filter (fun p => negb (Nat.eqb (pid p) n)) (runningPings (self w))
    /\ pendingTimers (host w') = pendingTimers (host w)
    /\ nextPid (host w') = nextPid (host w)
    /\ poolTracked w'.
Proof.
  intros Htr.
  assert (Hother : lookupProc n (host w) = None
                   \/ (exists nx, lookupProc n (host w) = Some (WhichL2ping nx))
                   -> filter (fun p => negb (Nat.eqb (pid p) n))
                             (runningPings (self w))
                      = runningPings (self w)).
  { intros Hn. apply filter_all. intros p Hp.
    destruct (Htr p Hp) as [c [t [m [cb Hl]]]].
    destruct (Nat.eqb_spec (pid p) n) as [E|E]; [|reflexivity].
    rewrite E in Hl. destruct Hn as [Hn|[nx Hn]]; congruence. }
  unfold deliver. destruct (lookupProc n (host w)) as [[nx|c t m cb]|] eqn:El.
  - exists w. rewrite Hother by (right; now exists nx). auto.
  - eexists. split; [reflexivity|]. simpl.
    repeat (split; [reflexivity|]).
    intros p Hp. simpl in Hp. apply filter_In in Hp. destruct Hp as [Hp Hne].
    apply negb_true_iff, Nat.eqb_neq in Hne.
    destruct (Htr p Hp) as [c' [t' [m' [cb' Hl]]]].
    exists c', t', m', cb'. unfold lookupProc in *. simpl.
    now rewrite find_filter_other.
  - exists w. rewrite Hother by now left. auto.
Qed.


Lemma onPingResult_frame (r : PingResult) (w : World) :
  pendingTimers (host (onPingResult r w)) = pendingTimers (host w)
  /\ procs (host (onPingResult r w)) = procs (host w)
  /\ nextPid (host (onPingResult r w)) = nextPid (host w)
  /\ timer (self (onPingResult r w)) = timer (self w)
  /\ runningPings (self (onPingResult r w)) = runningPings (self w).
Proof.
  unfold onPingResult.
  destruct (isPresent r);
    match goal with
    | |- context [if (0 <? List.length ?l)%nat then _ else _] =>
        destruct (0 <? List.length l)%nat
    end;
    match goal with
    | |- context [if ?c then emit _ _ else _] => destruct c
    end; repeat split.
Qed.

Lemma lookupProc_In (n : nat) (h : Host) (p : Proc) :
  lookupProc n h = Some p -> In (n, p) (procs h).
Proof.
  unfold lookupProc. destruct (find _ (procs h)) as [[k q]|] eqn:E;
    [|discriminate].
  intros [= <-]. apply find_some in E. destruct E as [Hin Hk].
  simpl in Hk. apply Nat.eqb_eq in Hk. now subst.
Qed.

Lemma filter_comm {A} (f g : A -> bool) (l : list A) :
  filter f (filter g l) = filter g (filter f l).
Proof.
  induction l as [|x r IH]; simpl; [reflexivity|].
  destruct (f x) eqn:Ef, (g x) eqn:Eg; simpl; rewrite ?Ef, ?Eg, IH; reflexivity.
Qed.







(* ------------------------------------------------------------------ *)
(** *** The states of a system started once *)

Lemma wellFormed_ext (w w' : World) :
  pendingTimers (host w') = pendingTimers (host w) ->
  procs (host w') = procs (host w) ->
  nextPid (host w') = nextPid (host w) ->
  timer (self w') = timer (self w) ->
  runningPings (self w') = runningPings (self w) ->
  wellFormed w -> wellFormed w'.
Proof.
  intros Hp Hq Hn Ht Hr [Hf [Htr [Ho Hc]]].
  unfold wellFormed, freshPids, poolTracked, armedOnce, chains, whichProcs,
    lookupProc in *.
  rewrite Hp, Hq, Hn, Ht, Hr. auto.
Qed.

Lemma find_app_found {A} (f : A -> bool) (l l' : list A) (x : A) :
  find f l = Some x -> find f (l ++ l') = Some x.
Proof.
  induction l as [|y r IH]; simpl; [discriminate|].
  destruct (f y); [auto | exact IH].
Qed.

Lemma pingBluetoothDevice_tracked (mac : string) (cb : option Callback)
    (w : World) :
  freshPids (host w) -> poolTracked w ->
  freshPids (host (pingBluetoothDevice mac cb w))
  /\ poolTracked (pingBluetoothDevice mac cb w).
Proof.
  intros Hf Htr. unfold pingBluetoothDevice. simpl. split.
  - intros e He. simpl in He. apply in_app_or in He.
    destruct He as [He|[<-|[]]]; simpl; [specialize (Hf e He)|]; lia.
  - intros p Hp. simpl in Hp. apply in_app_or in Hp.
    destruct Hp as [Hp|[<-|[]]].
    + destruct (Htr p Hp) as [c [t [m [cb' Hl]]]]. exists c, t, m, cb'.
      unfold lookupProc in *. simpl.
      destruct (find _ (procs (host w))) as [e|] eqn:E; [|discriminate].
      now rewrite (find_app_found _ _ _ _ E).
    + do 4 eexists. unfold lookupProc. simpl.
      now rewrite (find_app_fresh _ _ _ Hf).
Qed.

Lemma pingEach_tracked (macs : list string) :
  forall w, freshPids (host w) -> poolTracked w ->
    freshPids (host (pingEach macs w)) /\ poolTracked (pingEach macs w).
Proof.
  unfold pingEach. induction macs as [|m r IH]; intros w Hf Htr; simpl.
  - now split.
  - destruct (pingBluetoothDevice_tracked m (Some OnPingResult) w Hf Htr).
    now apply IH.
Qed.

(** A scan tick run while no chain is alive opens exactly one. *)
Lemma scanForAllDevices_wellFormed (w : World) :
  freshPids (host w) -> poolTracked w ->
  pendingTimers (host w) = [] -> whichProcs (host w) = [] ->
  wellFormed (scanForAllDevices w).
Proof.
  intros Hf Htr Hp Hw.
  destruct (pingEach_tracked (btDevicesToPing (self w)) w Hf Htr) as [Hf1 Htr1].
  rewrite scanForAllDevices_eq. cbv zeta.
  rewrite pingEach_eq in *. split; [|split; [|split]].
  - exact Hf1.
  - exact Htr1.
  - intros e He. simpl in He. rewrite Hp in He.
    destruct He as [<-|[]]. reflexivity.
  - unfold chains, whichProcs in *. simpl.
    rewrite Hp, filter_app, Hw, probesFor_not_which. simpl. lia.
Qed.

Lemma length_le_1_same {A} (l : list A) (x y : A) :
  (List.length l <= 1)%nat -> In x l -> In y l -> x = y.
Proof.
  destruct l as [|a [|b r]]; simpl; intros H Hx Hy.
  - destruct Hx.
  - destruct Hx as [<-|[]], Hy as [<-|[]]. reflexivity.
  - lia.
Qed.

Lemma reap_tracked (n : nat) (w : World) :
  freshPids (host w) -> poolTracked w ->
  (forall p, In p (runningPings (self w)) -> pid p <> n) ->
  freshPids (host (onHost (reap n) w)) /\ poolTracked (onHost (reap n) w).
Proof.
  intros Hf Htr Hne. split.
  - intros e He. simpl in He. apply filter_In in He. now apply Hf.
  - intros p Hp. simpl in Hp.
    destruct (Htr p Hp) as [c [t [m [cb Hl]]]]. exists c, t, m, cb.
    unfold lookupProc in *. simpl.
    rewrite find_filter_other; [exact Hl | now apply Hne].
Qed.

Lemma filter_length_le {A} (f : A -> bool) (l : list A) :
  (List.length (filter f l) <= List.length l)%nat.
Proof.
  induction l as [|x r IH]; simpl; [lia|]. destruct (f x); simpl; lia.
Qed.

(** Every handler keeps a well-formed world well-formed, whether it
    returns or throws. *)
Lemma deliver_wellFormed (e : HostEvent) (w : World) :
  wellFormed w -> wellFormed (worldOf (deliver e w)).
Proof.
  intros Hwf. pose proof Hwf as [Hf [Htr [Ho Hc]]].
  destruct e as [t|n|n code|n|n|n]; unfold deliver.
  - (* TimerFired *)
    destruct (isPending t (host w)) eqn:Ep; [|exact Hwf].
    unfold isPending in Ep. apply existsb_exists in Ep.
    destruct Ep as [e [He Het]]. apply Nat.eqb_eq in Het.
    unfold chains in Hc.
    assert (Hw0 : whichProcs (host w) = []).
    { apply length_zero_iff_nil.
      destruct (pendingTimers (host w)); [destruct He | simpl in Hc; lia]. }
    simpl. apply scanForAllDevices_wellFormed; simpl; auto.
    apply filter_none. intros x Hx.
    assert (x = e) as -> by (apply (length_le_1_same (pendingTimers (host w)));
                             [lia | assumption | assumption]).
    rewrite Het. now rewrite Nat.eqb_refl.
  - (* ProcError *)
    destruct (lookupProc n (host w)) as [[nx|c t m cb]|]; exact Hwf.
  - (* ProcExit *)
    destruct (lookupProc n (host w)) as [[nx|c t m cb]|] eqn:El;
      [|exact Hwf|exact Hwf].
    pose proof El as El0. unfold lookupProc in El.
    destruct (find _ (procs (host w))) as [e|] eqn:Ef; [|discriminate].
    injection El as El. apply find_some in Ef. destruct Ef as [He Hen].
    apply Nat.eqb_eq in Hen.
    assert (Hin : In e (whichProcs (host w))).
    { apply filter_In. split; [assumption|]. unfold isWhich. now rewrite El. }
    unfold chains in Hc.
    assert (Hp0 : pendingTimers (host w) = []).
    { apply length_zero_iff_nil.
      destruct (whichProcs (host w)); [destruct Hin | simpl in Hc; lia]. }
    assert (Hw0 : forall b, whichProcs (host (onHost (reap n) (onSelf b w))) = []).
    { intros b. unfold whichProcs. simpl. rewrite filter_comm.
      apply filter_none. intros x Hx.
      assert (x = e) as -> by (apply (length_le_1_same (whichProcs (host w)));
                               [lia | assumption | assumption]).
      rewrite Hen. now rewrite Nat.eqb_refl. }
    assert (Hne : forall p, In p (runningPings (self w)) -> pid p <> n).
    { intros p Hp E. destruct (Htr p Hp) as [c [t [m [cb Hl]]]].
      rewrite E in Hl. congruence. }
    set (b := set_isL2PingAvailable
                match code with Some c => c =? 0 | None => false end).
    destruct (reap_tracked n (onSelf b w)) as [Hf1 Htr1]; auto.
    cbv zeta.
    assert (Hwf1 : wellFormed (onHost (reap n) (onSelf b w))).
    { split; [exact Hf1|]. split; [exact Htr1|]. split.
      - intros x Hx. simpl in Hx. rewrite Hp0 in Hx. destruct Hx.
      - unfold chains. rewrite Hw0. simpl. rewrite Hp0. simpl. lia. }
    destruct (isL2PingAvailable (self (onHost (reap n) (onSelf b w))));
      [|exact Hwf1].
    destruct nx as [[]|]; simpl; [|exact Hwf1].
    apply scanForAllDevices_wellFormed; auto.
  - (* StdoutData *)
    destruct (lookupProc n (host w)) as [[nx|c t m cb]|]; try exact Hwf.
    destruct cb as [[]|]; simpl; [|exact Hwf].
    destruct (onPingResult_frame (mkResult m true) w) as [? [? [? [? ?]]]].
    now apply (wellFormed_ext w).
  - (* StderrData *)
    destruct (lookupProc n (host w)) as [[nx|c t m cb]|]; try exact Hwf.
    destruct cb as [[]|]; simpl; [|exact Hwf].
    destruct (onPingResult_frame (mkResult m false) w) as [? [? [? [? ?]]]].
    now apply (wellFormed_ext w).
  - (* ProcClose *)
    destruct (deliver_close n w Htr) as [w' [Hd [Hp [Ht [Hn Htr']]]]].
    unfold deliver in Hd. rewrite Hd. simpl.
    destruct (lookupProc n (host w)) as [[nx|c t m cb]|];
      injection Hd as <-; try exact Hwf.
    split; [|split; [|split]].
    + intros e He. simpl in He. apply filter_In in He. now apply Hf.
    + exact Htr'.
    + exact Ho.
    + unfold chains, whichProcs in *. simpl. rewrite filter_comm.
      pose proof (filter_length_le (fun e : nat * Proc => negb (Nat.eqb (fst e) n))
                    (filter isWhich (procs (host w)))). lia.
Qed.

Lemma stop_wellFormed (w : World) : wellFormed w -> wellFormed (stop w).
Proof.
  intros Hwf. destruct (timer (self w)) as [t|] eqn:Et.
  - destruct Hwf as [Hf [Htr [Ho Hc]]]. rewrite (stop_eq w t Et).
    split; [exact Hf|]. split; [|split].
    + intros p Hp. simpl in Hp. apply in_map_iff in Hp.
      destruct Hp as [q [<- Hq]]. rewrite pid_afterKill. exact (Htr q Hq).
    + intros e He. simpl in He. apply filter_In in He.
      destruct He as [He _]. exact (Ho e He).
    + unfold chains, whichProcs in *. cbn [pendingTimers procs host].
      eapply Nat.le_trans; [|exact Hc].
      apply Nat.add_le_mono_r, filter_length_le.
  - unfold stop. now rewrite Et.
Qed.

Lemma act_wellFormed (a : Action) (w : World) :
  wellFormed w -> wellFormed (worldOf (act a w)).
Proof.
  intros Hwf. destruct a as [e| |l|l|l|o|s]; simpl.
  - now apply deliver_wellFormed.
  - now apply stop_wellFormed.
  - destruct l; now apply (wellFormed_ext w).
  - destruct l; now apply (wellFormed_ext w).
  - now apply (wellFormed_ext w).
  - now apply (wellFormed_ext w).
  - destruct s; now apply (wellFormed_ext w).
Qed.

Lemma actAll_wellFormed (l : list Action) :
  forall w, wellFormed w -> wellFormed (worldOf (actAll l w)).
Proof.
  induction l as [|a r IH]; intros w Hwf; simpl; [exact Hwf|].
  pose proof (act_wellFormed a w Hwf) as H.
  destruct (act a w) as [w'|msg w']; simpl in H; [now apply IH | exact H].
Qed.

Lemma start_wellFormed (reportFirst : option bool) (w : World) :
  wellFormed w -> chains w = 0%nat -> wellFormed (start reportFirst w).
Proof.
  intros [Hf [Htr [Ho _]]] Hc. unfold chains in Hc.
  assert (Hp : pendingTimers (host w) = [])
    by (apply length_zero_iff_nil; lia).
  assert (Hw : whichProcs (host w) = [])
    by (apply length_zero_iff_nil; lia).
  rewrite start_eq.
  assert (Hl : wellFormed (latched reportFirst w)
               /\ host (latched reportFirst w) = host w).
  { split; [|now destruct reportFirst].
    apply (wellFormed_ext w); try (now destruct reportFirst).
    split; [exact Hf|]. split; [exact Htr|]. split; [exact Ho|].
    unfold chains. rewrite Hp, Hw. simpl. lia. }
  destruct Hl as [[Hf' [Htr' [Ho' _]]] Hh].
  destruct (isL2PingAvailable (self w)).
  - apply scanForAllDevices_wellFormed; auto; now rewrite Hh.
  - unfold checkForL2Ping. split; [|split; [|split]].
    + intros e He. simpl in He. apply in_app_or in He.
      destruct He as [He|[<-|[]]]; simpl; [specialize (Hf' e He)|]; lia.
    + intros p Hp'. simpl in Hp'.
      destruct (Htr' p Hp') as [c [t [m [cb Hlk]]]]. exists c, t, m, cb.
      unfold lookupProc in *. simpl.
      destruct (find _ (procs (host (latched reportFirst w)))) as [e|] eqn:E;
        [|discriminate].
      now rewrite (find_app_found _ _ _ _ E).
    + intros e He. simpl in He. rewrite Hh, Hp in He. destruct He.
    + unfold chains, whichProcs in *. simpl.
      rewrite Hh, Hp, filter_app, Hw. simpl. lia.
Qed.

Lemma newWorld_wellFormed (f : btPresence -> btPresence) :
  timer (f newBt) = None -> runningPings (f newBt) = [] ->
  wellFormed (onSelf f newWorld) /\ chains (onSelf f newWorld) = 0%nat.
Proof.
  intros Ht Hr. split; [|reflexivity].
  split; [|split; [|split]].
  - intros e He. destruct He.
  - intros p Hp. simpl in Hp. rewrite Hr in Hp. destruct Hp.
  - intros e He. destruct He.
  - unfold chains. simpl. lia.
Qed.

(** X19.  Whatever the registry and the options were set to beforehand,
    after one [start] every state the system passes through, under any
    host events and any calls other than [start], is well-formed: pids
    are fresh, the pool is tracked, and at most one timer chain is alive,
    its timer being the one held in [this.timer]. *)
Lemma started_once_wellFormed (devices : list string) (o : L2pingOptions)
    (reportFirst : option bool) (l : list Action) :
  wellFormed
    (worldOf (actAll l (start reportFirst
       (onSelf (fun b => setPingOptions o (setDevices devices b)) newWorld)))).
Proof.
  apply actAll_wellFormed.
  destruct (newWorld_wellFormed
              (fun b => setPingOptions o (setDevices devices b)))
    as [Hwf Hc]; try reflexivity.
  now apply start_wellFormed.
Qed.

(* ================================================================== *)
(** ** More on the device registry *)
(* ================================================================== *)

Lemma baseUniq_seen_ext (l seen seen' : list string) :
  (forall x, In x seen <-> In x seen') ->
  Lodash.baseUniq seen l = Lodash.baseUniq seen' l.
Proof.
  revert seen seen'. induction l as [|y r IH]; intros seen seen' H; simpl;
    [reflexivity|].
  assert (E : Lodash.includes seen y = Lodash.includes seen' y).
  { destruct (Lodash.includes seen y) eqn:E1, (Lodash.includes seen' y) eqn:E2;
      try reflexivity.
    - apply includes_In in E1. apply includes_not_In in E2. now apply H in E1.
    - apply includes_not_In in E1. apply includes_In in E2. now apply H in E2. }
  rewrite E. destruct (Lodash.includes seen' y).
  - now apply IH.
  - f_equal. apply IH. intros x. simpl. now rewrite H.
Qed.

Lemma baseUniq_app (l l' seen : list string) :
  Lodash.baseUniq seen (l ++ l')
  = Lodash.baseUniq seen l ++ Lodash.baseUniq (l ++ seen) l'.
Proof.
  revert seen. induction l as [|y r IH]; intros seen; simpl; [reflexivity|].
  destruct (Lodash.includes seen y) eqn:E.
  - rewrite IH. f_equal. apply baseUniq_seen_ext. intros x. simpl.
    apply includes_In in E. rewrite !in_app_iff.
    intuition (subst; auto).
  - simpl. f_equal. rewrite IH. f_equal. apply baseUniq_seen_ext.
    intros x. simpl. rewrite !in_app_iff. simpl. tauto.
Qed.

Lemma baseUniq_fresh (l seen : list string) :
  NoDup l -> (forall x, In x l -> ~ In x seen) ->
  Lodash.baseUniq seen l = l.
Proof.
  revert seen. induction l as [|y r IH]; intros seen Hnd Hd; simpl;
    [reflexivity|].
  inversion Hnd as [|? ? Hy Hr]; subst.
  replace (Lodash.includes seen y) with false
    by (symmetry; apply includes_not_In, Hd; now left).
  f_equal. apply IH; [assumption|].
  intros x Hx [<-|Hs]; [contradiction|]. apply (Hd x); [now right | assumption].
Qed.

Lemma baseUniq_all_seen (l seen : list string) :
  (forall x, In x l -> In x seen) -> Lodash.baseUniq seen l = [].
Proof.
  induction l as [|y r IH]; intros H; simpl; [reflexivity|].
  replace (Lodash.includes seen y) with true
    by (symmetry; apply includes_In, H; now left).
  apply IH. intros x Hx. apply H. now right.
Qed.

Lemma uniq_NoDup_id (l : list string) : NoDup l -> Lodash.uniq l = l.
Proof. intros H. apply baseUniq_fresh; [assumption | intros x _ []]. Qed.

Lemma pullAll_In (l values : list string) (x : string) :
  In x (Lodash.pullAll l values) <-> In x l /\ ~ In x values.
Proof.
  unfold Lodash.pullAll. rewrite filter_In, negb_true_iff, includes_not_In.
  tauto.
Qed.

Lemma in_map_toLower (l : list string) (a : string) :
  In a (map Lodash.toLower l) <-> exists x, In x l /\ a = Lodash.toLower x.
Proof.
  rewrite in_map_iff. split; intros [x [H1 H2]]; exists x; now split.
Qed.

(** X1.  [addDevices] never drops a registered device: the new registry
    is duplicate-free and holds exactly the old entries and the
    lower-cased new ones; on a duplicate-free registry the old entries
    keep their places and the new ones are appended. *)
Theorem addDevices_union (l : list string) (b : btPresence) :
  let r := getDevices (addDevices (Some l) b) in
  NoDup r
  /\ (forall a, In a r <-> In a (getDevices b)
                           \/ exists x, In x l /\ a = Lodash.toLower x)
  /\ (NoDup (getDevices b) -> exists added, r = getDevices b ++ added).
Proof.
  cbv zeta. unfold getDevices, addDevices, Lodash.concat. simpl.
  split; [apply uniq_NoDup|]. split.
  - intros a. now rewrite uniq_In, in_app_iff, in_map_toLower.
  - intros Hnd. unfold Lodash.uniq. rewrite baseUniq_app.
    fold (Lodash.uniq (btDevicesToPing b)). rewrite (uniq_NoDup_id _ Hnd).
    eexists. reflexivity.
Qed.

Lemma addDevices_union_witness :
  NoDup (getDevices (setDevices ["aa:01"] newBt))
  /\ exists added,
       getDevices (addDevices (Some ["BB:02"; "AA:01"])
                              (setDevices ["aa:01"] newBt))
       = getDevices (setDevices ["aa:01"] newBt) ++ added.
Proof.
  assert (Hnd : NoDup (getDevices (setDevices ["aa:01"] newBt)))
    by apply uniq_NoDup.
  split; [exact Hnd|].
  destruct (addDevices_union ["BB:02"; "AA:01"] (setDevices ["aa:01"] newBt))
    as [_ [_ Happ]].
  exact (Happ Hnd).
Defined.

(** X2.  Adding the same addresses a second time changes nothing, in
    whatever case they are spelled the second time round. *)
Theorem addDevices_idempotent (l l' : list string) (b : btPresence)
    (Hsame : map Lodash.toLower l' = map Lodash.toLower l) :
  addDevices (Some l') (addDevices (Some l) b) = addDevices (Some l) b.
Proof.
  unfold addDevices at 1. rewrite Hsame.
  unfold addDevices, Lodash.concat. simpl. unfold set_btDevicesToPing. simpl.
  f_equal.
  set (r := Lodash.uniq (btDevicesToPing b ++ map Lodash.toLower l)).
  unfold Lodash.uniq at 1. rewrite baseUniq_app.
  fold (Lodash.uniq r). rewrite (uniq_NoDup_id r (uniq_NoDup _)).
  rewrite baseUniq_all_seen; [apply app_nil_r|].
  intros x Hx. apply in_or_app. left. unfold r. rewrite uniq_In.
  apply in_or_app. now right.
Qed.

Lemma addDevices_idempotent_witness :
  getDevices (addDevices (Some ["aa:01"; "Bb:02"])
                (addDevices (Some ["AA:01"; "bb:02"]) newBt))
  = ["aa:01"; "bb:02"].
Proof.
  rewrite (addDevices_idempotent ["AA:01"; "bb:02"] ["aa:01"; "Bb:02"] newBt
             eq_refl).
  reflexivity.
Defined.

(** X3.  [removeDevices] removes exactly the registered entries equal to
    the lower-cased form of an argument, keeps every other entry, and
    leaves the registry duplicate-free. *)
Theorem removeDevices_difference (l : list string) (b : btPresence) :
  let r := getDevices (removeDevices (Some l) b) in
  NoDup r
  /\ (forall a, In a r <-> In a (getDevices b)
                           /\ ~ exists x, In x l /\ a = Lodash.toLower x).
Proof.
  cbv zeta. unfold getDevices, removeDevices. simpl.
  split; [apply uniq_NoDup|].
  intros a. now rewrite uniq_In, pullAll_In, in_map_toLower.
Qed.

(** X4.  On a duplicate-free registry that holds none of the addresses,
    adding them and removing them again restores the registry. *)
Theorem removeDevices_undoes_addDevices (l : list string) (b : btPresence)
    (Hnd : NoDup (getDevices b))
    (Hnew : forall x, In x l -> ~ In (Lodash.toLower x) (getDevices b)) :
  removeDevices (Some l) (addDevices (Some l) b) = b.
Proof.
  destruct b as [reg present secs avail tm latch pool opts].
  unfold getDevices in *. simpl in *.
  unfold removeDevices, addDevices, set_btDevicesToPing, Lodash.concat. simpl.
  f_equal.
  unfold Lodash.uniq at 2. rewrite baseUniq_app.
  fold (Lodash.uniq reg). rewrite (uniq_NoDup_id reg Hnd).
  unfold Lodash.pullAll. rewrite filter_app.
  rewrite (filter_all _ reg), (filter_none _ (Lodash.baseUniq _ _)).
  - rewrite app_nil_r. now apply uniq_NoDup_id.
  - intros x Hx. apply baseUniq_In in Hx. destruct Hx as [Hx _].
    apply negb_false_iff. now apply includes_In.
  - intros x Hx. apply negb_true_iff, includes_not_In.
    intros Hin. apply in_map_toLower in Hin. destruct Hin as [y [Hy ->]].
    exact (Hnew y Hy Hx).
Qed.

Lemma removeDevices_undoes_addDevices_witness :
  removeDevices (Some ["CC:03"])
    (addDevices (Some ["CC:03"]) (setDevices ["aa:01"; "bb:02"] newBt))
  = setDevices ["aa:01"; "bb:02"] newBt.
Proof.
  apply (removeDevices_undoes_addDevices ["CC:03"]
           (setDevices ["aa:01"; "bb:02"] newBt)).
  - apply uniq_NoDup.
  - intros x [<-|[]] [H|[H|[]]]; discriminate.
Defined.

Lemma regOk_uniq_lower (l : list string) :
  NoDup l -> (forall a, In a l -> Lodash.toLower a = a) ->
  Lodash.uniq (map Lodash.toLower l) = l.
Proof.
  intros Hnd Hlow.
  replace (map Lodash.toLower l) with l; [now apply uniq_NoDup_id|].
  clear Hnd. induction l as [|x r IH]; simpl; [reflexivity|].
  rewrite (Hlow x (or_introl eq_refl)) at 1. f_equal. apply IH.
  intros a Ha. apply Hlow. now right.
Qed.

Lemma regOk_addDevices (l : option (list string)) (b : btPresence) :
  regOk b -> regOk (addDevices l b).
Proof.
  intros [Hnd Hlow]. destruct l as [l|]; [|now split]. split.
  - apply uniq_NoDup.
  - intros a Ha. simpl in Ha. unfold Lodash.concat in Ha.
    apply uniq_In, in_app_or in Ha. destruct Ha as [Ha|Ha].
    + now apply Hlow.
    + apply in_map_toLower in Ha. destruct Ha as [x [_ ->]].
      apply toLower_idem.
Qed.

Lemma regOk_removeDevices (l : option (list string)) (b : btPresence) :
  regOk b -> regOk (removeDevices l b).
Proof.
  intros [Hnd Hlow]. destruct l as [l|]; [|now split]. split.
  - apply uniq_NoDup.
  - intros a Ha. simpl in Ha. apply uniq_In, pullAll_In in Ha.
    apply Hlow, Ha.
Qed.

Lemma regOk_setDevices (X : list string) (b : btPresence) :
  regOk (setDevices X b).
Proof.
  split.
  - apply uniq_NoDup.
  - intros a Ha. simpl in Ha. apply uniq_In, in_map_toLower in Ha.
    destruct Ha as [x [_ ->]]. apply toLower_idem.
Qed.

(** X5.  Every registry operation yields a registry in normal form when
    it starts from one ([setDevices] from any registry), so the list
    [getDevices] returns never holds a duplicate or an upper-case letter
    [A]..[Z]; and writing that list back with [setDevices] changes
    nothing. *)
Theorem registry_normal_form (l : option (list string)) (X : list string)
    (b : btPresence) (Hok : regOk b) :
  regOk (addDevices l b)
  /\ regOk (removeDevices l b)
  /\ regOk (setDevices X b)
  /\ setDevices (getDevices b) b = b.
Proof.
  split; [now apply regOk_addDevices|].
  split; [now apply regOk_removeDevices|].
  split; [apply regOk_setDevices|].
  destruct Hok as [Hnd Hlow].
  destruct b as [reg present secs avail tm latch pool opts].
  unfold setDevices, getDevices, set_btDevicesToPing. simpl in *.
  now rewrite regOk_uniq_lower.
Qed.

Lemma registry_normal_form_witness :
  regOk (addDevices (Some ["AA:01"; "aa:01"]) newBt)
  /\ setDevices (getDevices newBt) newBt = newBt.
Proof.
  assert (Hok : regOk newBt) by (split; [constructor | intros a []]).
  destruct (registry_normal_form (Some ["AA:01"; "aa:01"]) [] newBt Hok)
    as [Ha [_ [_ Hs]]].
  now split.
Defined.

(* ================================================================== *)
(** ** More on the presence aggregator *)
(* ================================================================== *)

(** The presence list a result leaves behind. *)
Lemma onPingResult_self (r : PingResult) (w : World) :
  self (onPingResult r w)
  = set_reportFirstResult false
      (set_btDevicesPresent
         (if isPresent r
          then Lodash.uniq (Lodash.concat1 (btDevicesPresent (self w))
                                           (address r))
          else Lodash.pull (btDevicesPresent (self w)) (address r))
         (self w)).
Proof.
  unfold onPingResult.
  destruct (isPresent r);
    match goal with
    | |- context [if (0 <? List.length ?l)%nat then _ else _] =>
        destruct (0 <? List.length l)%nat
    end;
    match goal with
    | |- context [if ?c then emit _ _ else _] => destruct c
    end; reflexivity.
Qed.

(** The emissions of one result, in full. *)
Lemma onPingResult_emitted (r : PingResult) (w : World) :
  emittedSince w (onPingResult r w)
    (mkEmission (EvPingResult r) (btDevicesPresent (self w))
     :: if negb (Bool.eqb (anyPresent w) (anyPresent (onPingResult r w)))
           || reportFirstResult (self w)
        then [mkEmission
                (if anyPresent (onPingResult r w)
                 then EvPresent (address r) else EvNotPresent (address r))
                (btDevicesPresent (self (onPingResult r w)))]
        else []).
Proof.
  unfold anyPresent. rewrite onPingResult_self.
  unfold emittedSince, onPingResult.
  destruct w as [[reg present secs avail tm latch pool opts] h]. simpl.
  destruct (isPresent r); simpl;
    match goal with
    | |- context [(0 <? List.length ?l)%nat] =>
        destruct (0 <? List.length l)%nat
    end;
    destruct (0 <? List.length present)%nat; destruct latch; simpl;
      rewrite <- ?app_assoc; reflexivity.
Qed.

Lemma pull_In (l : list string) (a x : string) :
  In x (Lodash.pull l a) <-> In x l /\ x <> a.
Proof.
  unfold Lodash.pull. rewrite pullAll_In. simpl. intuition congruence.
Qed.

Lemma onPingResult_present_In (r : PingResult) (w : World) (x : string) :
  In x (btDevicesPresent (self (onPingResult r w)))
  <-> if isPresent r
      then In x (btDevicesPresent (self w)) \/ x = address r
      else In x (btDevicesPresent (self w)) /\ x <> address r.
Proof.
  rewrite onPingResult_self. simpl. destruct (isPresent r).
  - unfold Lodash.concat1. rewrite uniq_In, in_app_iff. simpl.
    intuition congruence.
  - apply pull_In.
Qed.

Lemma onPingResult_present_NoDup (r : PingResult) (w : World) :
  NoDup (btDevicesPresent (self w)) ->
  NoDup (btDevicesPresent (self (onPingResult r w))).
Proof.
  intros H. rewrite onPingResult_self. simpl. destruct (isPresent r).
  - apply uniq_NoDup.
  - now apply NoDup_filter.
Qed.

(** X6.  A positive result puts its address into the presence list, a
    negative one takes it out, and no other address enters or leaves;
    a duplicate-free presence list stays duplicate-free. *)
Theorem onPingResult_updates_one_address (r : PingResult) (w : World) :
  let before := btDevicesPresent (self w) in
  let after := btDevicesPresent (self (onPingResult r w)) in
  (In (address r) after <-> isPresent r = true)
  /\ (forall x, x <> address r -> (In x after <-> In x before))
  /\ (NoDup before -> NoDup after).
Proof.
  cbv zeta. split; [|split].
  - rewrite onPingResult_present_In. destruct (isPresent r);
      intuition congruence.
  - intros x Hx. rewrite onPingResult_present_In. destruct (isPresent r);
      intuition congruence.
  - apply onPingResult_present_NoDup.
Qed.

Lemma onPingResult_updates_one_address_witness :
  let w := onPingResult (mkResult "aa:01" true) newWorld in
  In "aa:01" (btDevicesPresent (self (onPingResult (mkResult "bb:02" false) w)))
  /\ NoDup (btDevicesPresent (self (onPingResult (mkResult "bb:02" false) w))).
Proof.
  cbv zeta.
  destruct (onPingResult_updates_one_address (mkResult "bb:02" false)
              (onPingResult (mkResult "aa:01" true) newWorld))
    as [_ [Hother Hnd]].
  split.
  - apply (Hother "aa:01"); [discriminate | simpl; now left].
  - apply Hnd. simpl. repeat constructor. intros [].
Defined.

(** X7.  Which events one result raises.  [ping-result] always comes
    first, carrying the presence list as it was.  One aggregate event
    follows exactly when the collective signal flipped or the latch was
    still set: [present] if somebody is present afterwards, [not-present]
    if nobody is; otherwise nothing follows.  The latch is cleared in
    every case. *)
Theorem onPingResult_notifies_on_change_or_first (r : PingResult)
    (w : World) :
  let w' := onPingResult r w in
  emittedSince w w'
    (mkEmission (EvPingResult r) (btDevicesPresent (self w))
     :: if negb (Bool.eqb (anyPresent w) (anyPresent w'))
           || reportFirstResult (self w)
        then [mkEmission
                (if anyPresent w'
                 then EvPresent (address r) else EvNotPresent (address r))
                (btDevicesPresent (self w'))]
        else [])
  /\ reportFirstResult (self w') = false.
Proof.
  cbv zeta. split; [apply onPingResult_emitted|].
  now rewrite onPingResult_self.
Qed.

Lemma filter_idem {A} (f : A -> bool) (l : list A) :
  filter f (filter f l) = filter f l.
Proof.
  apply filter_all. intros x Hx. now apply filter_In in Hx.
Qed.

(** X8.  The same result processed a second time changes no field of the
    instance and raises [ping-result] only. *)
Theorem onPingResult_repeat_is_silent (r : PingResult) (w : World) :
  let w1 := onPingResult r w in
  let w2 := onPingResult r w1 in
  self w2 = self w1
  /\ emittedSince w1 w2
       [mkEmission (EvPingResult r) (btDevicesPresent (self w1))].
Proof.
  cbv zeta.
  assert (Hs : self (onPingResult r (onPingResult r w))
               = self (onPingResult r w)).
  { rewrite (onPingResult_self r (onPingResult r w)).
    rewrite (onPingResult_self r w). unfold set_reportFirstResult,
      set_btDevicesPresent. simpl. f_equal.
    destruct (isPresent r).
    - set (l := Lodash.uniq (Lodash.concat1 (btDevicesPresent (self w))
                                            (address r))).
      unfold Lodash.concat1, Lodash.uniq at 1. rewrite baseUniq_app.
      fold (Lodash.uniq l). rewrite (uniq_NoDup_id l (uniq_NoDup _)).
      rewrite baseUniq_all_seen; [apply app_nil_r|].
      intros x [<-|[]]. apply in_or_app. left. unfold l, Lodash.concat1.
      rewrite uniq_In. apply in_or_app. right. now left.
    - unfold Lodash.pull, Lodash.pullAll. apply filter_idem. }
  split; [exact Hs|].
  pose proof (onPingResult_emitted r (onPingResult r w)) as He.
  unfold anyPresent in He. rewrite Hs in He.
  rewrite Bool.eqb_reflx in He.
  replace (reportFirstResult (self (onPingResult r w))) with false in He
    by (now rewrite onPingResult_self).
  exact He.
Qed.

(** X9.  Results for two different devices may be processed in either
    order: the same addresses are present afterwards. *)
Theorem onPingResult_order_irrelevant (r1 r2 : PingResult) (w : World)
    (Hdiff : address r1 <> address r2) :
  forall x,
    In x (btDevicesPresent (self (onPingResult r2 (onPingResult r1 w))))
    <-> In x (btDevicesPresent (self (onPingResult r1 (onPingResult r2 w)))).
Proof.
  intros x.
  rewrite (onPingResult_present_In r2 (onPingResult r1 w)),
          (onPingResult_present_In r1 (onPingResult r2 w)).
  destruct (isPresent r1) eqn:E1, (isPresent r2) eqn:E2;
    rewrite !onPingResult_present_In, ?E1, ?E2;
    intuition congruence.
Qed.

Lemma onPingResult_order_irrelevant_witness :
  In "aa:01" (btDevicesPresent (self
       (onPingResult (mkResult "bb:02" false)
          (onPingResult (mkResult "aa:01" true) newWorld))))
  <-> In "aa:01" (btDevicesPresent (self
       (onPingResult (mkResult "aa:01" true)
          (onPingResult (mkResult "bb:02" false) newWorld)))).
Proof.
  apply (onPingResult_order_irrelevant
           (mkResult "aa:01" true) (mkResult "bb:02" false) newWorld).
  discriminate.
Defined.

(* ================================================================== *)
(** ** More on the options store *)
(* ================================================================== *)

Lemma optsOk_setPingOptions (o : L2pingOptions) (b : btPresence) :
  optsOk (l2pingOptions (setPingOptions o b)).
Proof.
  unfold optsOk, setPingOptions. simpl.
  destruct (truthy (count o)) eqn:Ec, (truthy (timeoutSecs o)) eqn:Et;
    auto.
Qed.

(** X10.  Whatever is passed to [setPingOptions], the struct stored
    afterwards has a truthy [count] and a truthy [timeoutSecs] (never
    [undefined], [NaN] or 0); and writing back a struct of that kind, such
    as the one [getPingOptions] returns, changes nothing. *)
Theorem setPingOptions_stores_usable_options (o : L2pingOptions)
    (b : btPresence) :
  optsOk (getPingOptions (setPingOptions o b))
  /\ (optsOk (getPingOptions b) -> setPingOptions (getPingOptions b) b = b)
  /\ setPingOptions (getPingOptions (setPingOptions o b)) (setPingOptions o b)
     = setPingOptions o b.
Proof.
  assert (Hback : forall b', optsOk (getPingOptions b') ->
                             setPingOptions (getPingOptions b') b' = b').
  { intros [reg present secs avail tm latch pool [c t]] [Hc Ht].
    unfold getPingOptions, setPingOptions, set_l2pingOptions in *.
    simpl in *. now rewrite Hc, Ht. }
  split; [apply optsOk_setPingOptions|]. split; [apply Hback|].
  apply Hback, optsOk_setPingOptions.
Qed.

Lemma setPingOptions_stores_usable_options_witness :
  optsOk (getPingOptions newBt)
  /\ setPingOptions (getPingOptions newBt) newBt = newBt.
Proof.
  assert (Hok : optsOk (getPingOptions newBt)) by (split; reflexivity).
  split; [exact Hok|].
  destruct (setPingOptions_stores_usable_options defaultOptions newBt)
    as [_ [Hback _]].
  exact (Hback Hok).
Defined.

(* ================================================================== *)
(** ** More on the scan scheduler *)
(* ================================================================== *)





Lemma scan_of_empty_registry (w : World) :
  btDevicesToPing (self w) = [] ->
  scanForAllDevices w
  = {| self := set_timer (Some (nextTimer (host w))) (self w);
       host := snd (setTimeout (scanIntervalSecs (self w) * 1000) (host w)) |}.
Proof.
  intros Hempty. unfold scanForAllDevices. rewrite Hempty. reflexivity.
Qed.

(** X12.  While the registry is empty, scan ticks go on without ever
    spawning a process, touching the pool or emitting an event, however
    many timers fire. *)
Theorem ticks_of_empty_registry_spawn_nothing (ts : list Timer) :
  forall w, btDevicesToPing (self w) = [] ->
  exists w',
    deliverAll (map TimerFired ts) w = Running w'
    /\ procs (host w') = procs (host w)
    /\ nextPid (host w') = nextPid (host w)
    /\ runningPings (self w') = runningPings (self w)
    /\ emitted (host w') = emitted (host w)
    /\ btDevicesToPing (self w') = [].
Proof.
  induction ts as [|t r IH]; intros w Hempty.
  - exists w. repeat split. exact Hempty.
  - cbn [map deliverAll]. unfold deliver.
    destruct (isPending t (host w)).
    + set (w1 := scanForAllDevices (onHost (clearTimeout t) w)).
      assert (E : w1 = {| self := set_timer (Some (nextTimer (host w))) (self w);
                          host := snd (setTimeout (scanIntervalSecs (self w) * 1000)
                                         (clearTimeout t (host w))) |})
        by (unfold w1; now rewrite scan_of_empty_registry).
      destruct (IH w1) as [w' [Hd [Hp [Hn [Hr [He Hreg]]]]]].
      { rewrite E. exact Hempty. }
      exists w'. split; [exact Hd|].
      rewrite Hp, Hn, Hr, He, E. repeat split. exact Hreg.
    + apply IH, Hempty.
Qed.

Lemma ticks_of_empty_registry_spawn_nothing_witness :
  exists w',
    deliverAll [TimerFired 0%nat; TimerFired 1%nat; TimerFired 2%nat]
               (scanForAllDevices newWorld) = Running w'
    /\ procs (host w') = []
    /\ nextPid (host w') = 1%nat
    /\ runningPings (self w') = []
    /\ emitted (host w') = []
    /\ btDevicesToPing (self w') = [].
Proof.
  apply (ticks_of_empty_registry_spawn_nothing [0%nat; 1%nat; 2%nat]
           (scanForAllDevices newWorld)).
  reflexivity.
Defined.

(** X13.  A second [start] on a scanning system opens a second timer
    chain, and [stop] cancels only the timer armed last: the timer of the
    first [start] is still pending after [stop], so scan ticks go on. *)
Theorem stop_after_two_starts_leaves_a_timer (r1 r2 : option bool)
    (w : World) (Hav : isL2PingAvailable (self w) = true) :
  let w' := stop (start r2 (start r1 w)) in
  let first := nextTimer (host w) in
  timer (self w') = Some (S first)
  /\ In (first, armedDelay (scanIntervalSecs (self w) * 1000)) (pendingTimers (host w'))
  /\ isPending first (host w') = true.
Proof.
  cbv zeta.
  assert (H1 : isL2PingAvailable (self (start r1 w)) = true
               /\ timer (self (start r1 w)) = Some (nextTimer (host w))
               /\ nextTimer (host (start r1 w)) = S (nextTimer (host w))
               /\ scanIntervalSecs (self (start r1 w)) = scanIntervalSecs (self w)
               /\ pendingTimers (host (start r1 w))
                  = pendingTimers (host w)
                    ++ [(nextTimer (host w), armedDelay (scanIntervalSecs (self w) * 1000))]).
  { rewrite start_eq, Hav, scanForAllDevices_eq. cbv zeta.
    rewrite pingEach_eq. destruct r1; simpl; auto. }
  destruct H1 as [Hav1 [Ht1 [Hn1 [Hs1 Hp1]]]].
  assert (H2 : timer (self (start r2 (start r1 w)))
               = Some (S (nextTimer (host w)))
               /\ pendingTimers (host (start r2 (start r1 w)))
                  = pendingTimers (host (start r1 w))
                    ++ [(S (nextTimer (host w)),
                         armedDelay (scanIntervalSecs (self w) * 1000))]).
  { rewrite start_eq, Hav1, scanForAllDevices_eq. cbv zeta.
    rewrite pingEach_eq. destruct r2; simpl; rewrite Hn1, Hs1; auto. }
  destruct H2 as [Ht2 Hp2].
  rewrite (stop_eq _ _ Ht2). simpl. rewrite Hp2, Hp1.
  assert (Hin : In (nextTimer (host w), armedDelay (scanIntervalSecs (self w) * 1000))
                  (filter (fun e : nat * Z =>
                             negb (Nat.eqb (fst e) (S (nextTimer (host w)))))
                     ((pendingTimers (host w)
                       ++ [(nextTimer (host w),
                            armedDelay (scanIntervalSecs (self w) * 1000))])
                      ++ [(S (nextTimer (host w)),
                           armedDelay (scanIntervalSecs (self w) * 1000))]))).
  { apply filter_In. split.
    - apply in_or_app. left. apply in_or_app. right. now left.
    - simpl. apply negb_true_iff, Nat.eqb_neq. lia. }
  split; [exact Ht2|]. split; [exact Hin|].
  unfold isPending. simpl. apply existsb_exists.
  eexists. split; [exact Hin|]. simpl. apply Nat.eqb_refl.
Qed.

Lemma stop_after_two_starts_leaves_a_timer_witness :
  pendingTimers (host (stop (start None (start None scanningWorld))))
  = [(0%nat, 15000); (1%nat, 15000)]
  /\ isPending 1%nat (host (stop (start None (start None scanningWorld))))
     = true.
Proof.
  split; [reflexivity|].
  apply (stop_after_two_starts_leaves_a_timer None None scanningWorld).
  reflexivity.
Defined.

Lemma reachedByKill_afterKill (h : Host) (p : ChildProcess) :
  reachedByKill h (afterKill h p) = false.
Proof.
  unfold afterKill. destruct (reachedByKill h p) eqn:E; [reflexivity | exact E].
Qed.

(** X14.  [stop] is idempotent: a second [stop] changes nothing.  The
    handles the first [stop] killed are skipped, and on a handle whose
    process had already exited [kill()] fails again, without effect; no
    process is signalled a second time. *)
Theorem stop_idempotent (w : World) : stop (stop w) = stop w.
Proof.
  destruct (timer (self w)) as [t|] eqn:Et.
  - assert (Et' : timer (self (stop w)) = Some t)
      by (rewrite (stop_eq w t Et); exact Et).
    rewrite (stop_eq (stop w) t Et'), (stop_eq w t Et).
    cbn [self host runningPings set_runningPings pendingTimers nextTimer
         nextPid procs signals emitted exited console].
    change (reachedByKill {| pendingTimers := _; nextTimer := _; nextPid := _;
                             procs := procs (host w); signals := _;
                             emitted := _; exited := exited (host w);
                             console := _ |})
      with (reachedByKill (host w)).
    change (afterKill {| pendingTimers := _; nextTimer := _; nextPid := _;
                         procs := procs (host w); signals := _;
                         emitted := _; exited := exited (host w);
                         console := _ |})
      with (afterKill (host w)).
    rewrite filter_idem, map_map.
    rewrite (filter_none (reachedByKill (host w))
               (map (afterKill (host w)) (runningPings (self w)))).
    + simpl. rewrite app_nil_r. unfold set_runningPings. simpl.
      f_equal. f_equal. apply map_ext. intros p.
      unfold afterKill at 1. now rewrite reachedByKill_afterKill.
    + intros p Hp. apply in_map_iff in Hp. destruct Hp as [q [<- _]].
      apply reachedByKill_afterKill.
  - unfold stop at 1. unfold stop. rewrite Et. now rewrite Et.
Qed.

Lemma stop_procs (w : World) :
  procs (host (stop w)) = procs (host w)
  /\ emitted (host (stop w)) = emitted (host w).
Proof.
  destruct (timer (self w)) as [t|] eqn:Et.
  - rewrite (stop_eq w t Et). now split.
  - unfold stop. rewrite Et. now split.
Qed.

(** X15.  [stop] called while the availability check is still running
    (no timer armed yet) does nothing, and does not cancel the check:
    when [which] then exits with 0 the scan starts all the same, probes
    are dispatched and the timer is armed. *)
Theorem stop_does_not_cancel_availability_check (reportFirst : option bool)
    (w : World)
    (Hav : isL2PingAvailable (self w) = false)
    (Htimer : timer (self w) = None)
    (Hfresh : freshPids (host w)) :
  stop (start reportFirst w) = start reportFirst w
  /\ exists w'',
       deliver (ProcExit (nextPid (host w)) (Some 0))
               (stop (start reportFirst w)) = Running w''
       /\ isL2PingAvailable (self w'') = true
       /\ timer (self w'') = Some (nextTimer (host w))
       /\ isPending (nextTimer (host w)) (host w'') = true
       /\ runningPings (self w'')
          = runningPings (self w)
            ++ handlesFor (S (nextPid (host w))) (btDevicesToPing (self w)).
Proof.
  assert (Hstop : stop (start reportFirst w) = start reportFirst w).
  { unfold stop. rewrite start_eq, Hav.
    replace (timer (self (checkForL2Ping (Some ScanForAllDevices)
                            (latched reportFirst w)))) with (@None Timer);
      [reflexivity|].
    destruct reportFirst; simpl; now rewrite Htimer. }
  split; [exact Hstop|]. rewrite Hstop, start_eq, Hav.
  set (w0 := latched reportFirst w).
  assert (Hh : host w0 = host w) by (unfold w0; now destruct reportFirst).
  assert (Hl : lookupProc (nextPid (host w))
                 (host (checkForL2Ping (Some ScanForAllDevices) w0))
               = Some (WhichL2ping (Some ScanForAllDevices))).
  { unfold checkForL2Ping. simpl. rewrite Hh.
    apply (lookupProc_spawn _ (host w) Hfresh). }
  eexists. split; [unfold deliver; rewrite Hl; simpl; reflexivity|].
  rewrite scanForAllDevices_eq. cbv zeta. rewrite pingEach_eq.
  unfold isPending, w0. destruct reportFirst; simpl;
    rewrite existsb_app; simpl; rewrite Nat.eqb_refl, orb_true_r; auto.
Qed.

Lemma stop_does_not_cancel_availability_check_witness :
  exists w'',
    deliver (ProcExit 1 (Some 0))
            (stop (start None (onSelf (setDevices ["AA:01"]) newWorld)))
    = Running w''
    /\ isL2PingAvailable (self w'') = true
    /\ timer (self w'') = Some 0%nat
    /\ isPending 0%nat (host w'') = true
    /\ runningPings (self w'') = [mkChild 2 false].
Proof.
  destruct (stop_does_not_cancel_availability_check None
              (onSelf (setDevices ["AA:01"]) newWorld) eq_refl eq_refl)
    as [_ H].
  { intros e He. destruct He. }
  exact H.
Defined.



(** X17.  [stop] does not silence a probe: output of a probe (killed or
    not) that arrives after [stop] and before the process closes is
    still handed to [onPingResult], which announces and aggregates it
    as usual. *)
Theorem result_after_stop_is_still_processed (n : nat) (c t : JsNum)
    (mac : string) (onStdout : bool) (w : World)
    (Hlive : lookupProc n (host w)
             = Some (L2ping c t mac (Some OnPingResult))) :
  deliver (chunkEvent n onStdout) (stop w)
  = Running (onPingResult (mkResult mac onStdout) (stop w))
  /\ pingResults (host (onPingResult (mkResult mac onStdout) (stop w)))
     = pingResults (host w) ++ [mkResult mac onStdout].
Proof.
  destruct (stop_procs w) as [Hp He].
  assert (Hl : lookupProc n (host (stop w))
               = Some (L2ping c t mac (Some OnPingResult)))
    by (unfold lookupProc in *; now rewrite Hp).
  split.
  - destruct onStdout; simpl; now rewrite Hl.
  - rewrite onPingResult_pingResults. unfold pingResults. now rewrite He.
Qed.

Lemma result_after_stop_is_still_processed_witness :
  map event (emitted (host (worldOf
    (deliver (StdoutData 2) (stop scanningWorld)))))
  = [EvPingResult (mkResult "aa:01" true); EvPresent "aa:01"].
Proof.
  destruct (result_after_stop_is_still_processed 2 (JsNumber 1) (JsNumber 5)
              "aa:01" true scanningWorld eq_refl) as [Hd _].
  simpl chunkEvent in Hd. rewrite Hd. reflexivity.
Defined.

(** X18.  The ['close'] event of a process removes from the pool exactly
    the handles of that process; the other handles, the timers, the
    presence list and the emitter are left alone. *)
Theorem close_untracks_only_that_probe (n : nat) (w : World)
    (Htracked : poolTracked w) :
  exists w',
    deliver (ProcClose n) w = Running w'
    /\ (forall p, In p (runningPings (self w'))
                  <-> In p (runningPings (self w)) /\ pid p <> n)
    /\ pendingTimers (host w') = pendingTimers (host w)
    /\ emitted (host w') = emitted (host w)
    /\ btDevicesPresent (self w') = btDevicesPresent (self w).
Proof.
  destruct (deliver_close n w Htracked) as [w' [Hd [Hp [Ht _]]]].
  exists w'. split; [exact Hd|]. split; [|split; [exact Ht|]].
  - intros p. rewrite Hp, filter_In, negb_true_iff, Nat.eqb_neq. tauto.
  - unfold deliver in Hd.
    destruct (lookupProc n (host w)) as [[nx|c t m cb]|];
      injection Hd as <-; now split.
Qed.

Lemma close_untracks_only_that_probe_witness :
  exists w',
    deliver (ProcClose 2) scanningWorld = Running w'
    /\ (forall p, In p (runningPings (self w'))
                  <-> In p [mkChild 2 false; mkChild 3 false] /\ pid p <> 2%nat)
    /\ pendingTimers (host w') = [(0%nat, 15000)]
    /\ emitted (host w') = []
    /\ btDevicesPresent (self w') = [].
Proof.
  apply (close_untracks_only_that_probe 2 scanningWorld).
  intros p Hp. simpl in Hp.
  destruct Hp as [<-|[<-|[]]]; do 4 eexists; reflexivity.
Defined.

(* ================================================================== *)
(** ** What holds in every reachable state *)
(* ================================================================== *)

Lemma configOk_ext (w w' : World) :
  btDevicesToPing (self w') = btDevicesToPing (self w) ->
  l2pingOptions (self w') = l2pingOptions (self w) ->
  btDevicesPresent (self w') = btDevicesPresent (self w) ->
  (forall e, In e (procs (host w')) -> In e (procs (host w))) ->
  configOk w -> configOk w'.
Proof.
  intros Hr Ho Hp Hq [[Hnd Hlow] [Hopts [Hpres Hprocs]]].
  unfold configOk, regOk. rewrite Hr, Ho, Hp.
  split; [now split|]. split; [exact Hopts|]. split; [exact Hpres|].
  apply Forall_forall. intros e He.
  rewrite Forall_forall in Hprocs. auto.
Qed.

Lemma probesFor_argsOk (opts : L2pingOptions) (macs : list string) :
  optsOk opts -> forall n, Forall procArgsOk (probesFor opts n macs).
Proof.
  intros Hok. unfold probesFor.
  induction macs as [|m r IH]; intros n; simpl; constructor.
  - exact Hok.
  - apply IH.
Qed.

Lemma scanForAllDevices_configOk (w : World) :
  configOk w -> configOk (scanForAllDevices w).
Proof.
  intros [Hreg [Hopts [Hpres Hprocs]]].
  rewrite scanForAllDevices_eq. cbv zeta. rewrite pingEach_eq.
  split; [exact Hreg|]. split; [exact Hopts|]. split; [exact Hpres|].
  simpl. apply Forall_app. split; [exact Hprocs|].
  now apply probesFor_argsOk.
Qed.

Lemma onPingResult_configOk (r : PingResult) (w : World) :
  configOk w -> configOk (onPingResult r w).
Proof.
  intros [Hreg [Hopts [Hpres Hprocs]]].
  split; [|split; [|split]].
  - now rewrite onPingResult_self.
  - now rewrite onPingResult_self.
  - now apply onPingResult_present_NoDup.
  - now rewrite onPingResult_procs.
Qed.

Lemma stop_configOk (w : World) : configOk w -> configOk (stop w).
Proof.
  intros H. destruct (timer (self w)) as [t|] eqn:Et.
  - rewrite (stop_eq w t Et). now apply (configOk_ext w).
  - unfold stop. now rewrite Et.
Qed.

Lemma deliver_configOk (e : HostEvent) (w : World) :
  configOk w -> configOk (worldOf (deliver e w)).
Proof.
  intros H. destruct e as [t|n|n code|n|n|n]; unfold deliver.
  - destruct (isPending t (host w)); [|exact H]. simpl.
    apply scanForAllDevices_configOk. apply (configOk_ext w); auto.
  - destruct (lookupProc n (host w)) as [[nx|c t m cb]|]; exact H.
  - destruct (lookupProc n (host w)) as [[nx|c t m cb]|]; try exact H.
    cbv zeta.
    match goal with
    | |- context [onHost (reap n) ?w0] =>
        assert (H1 : configOk (onHost (reap n) w0))
    end.
    { apply (configOk_ext w); auto.
      intros e He. simpl in He. now apply filter_In in He. }
    match goal with
    | |- context [if ?c then _ else _] => destruct c
    end; [|exact H1].
    destruct nx as [[]|]; simpl; [|exact H1].
    now apply scanForAllDevices_configOk.
  - destruct (lookupProc n (host w)) as [[nx|c t m cb]|]; try exact H.
    destruct cb as [[]|]; simpl; [|exact H]. now apply onPingResult_configOk.
  - destruct (lookupProc n (host w)) as [[nx|c t m cb]|]; try exact H.
    destruct cb as [[]|]; simpl; [|exact H]. now apply onPingResult_configOk.
  - destruct (lookupProc n (host w)) as [[nx|c t m cb]|]; try exact H.
    simpl. apply (configOk_ext w); auto.
    intros e He. simpl in He. now apply filter_In in He.
Qed.

Lemma act_configOk (a : Action) (w : World) :
  configOk w -> configOk (worldOf (act a w)).
Proof.
  intros H. pose proof H as [Hreg [Hopts [Hpres Hprocs]]].
  destruct a as [e| |l|l|l|o|s]; simpl.
  - now apply deliver_configOk.
  - now apply stop_configOk.
  - split; [now apply regOk_addDevices|].
    destruct l; repeat (split; [assumption|]); assumption.
  - split; [now apply regOk_removeDevices|].
    destruct l; repeat (split; [assumption|]); assumption.
  - split; [apply regOk_setDevices|].
    repeat (split; [assumption|]); assumption.
  - split; [exact Hreg|]. split; [apply optsOk_setPingOptions|].
    split; assumption.
  - destruct s; now apply (configOk_ext w).
Qed.

Lemma start_configOk (reportFirst : option bool) (w : World) :
  configOk w -> configOk (start reportFirst w).
Proof.
  intros H. rewrite start_eq.
  assert (H0 : configOk (latched reportFirst w))
    by (destruct reportFirst; [now apply (configOk_ext w) | exact H]).
  destruct (isL2PingAvailable (self w)).
  - now apply scanForAllDevices_configOk.
  - destruct H0 as [Hreg [Hopts [Hpres Hprocs]]].
    split; [exact Hreg|]. split; [exact Hopts|]. split; [exact Hpres|].
    unfold checkForL2Ping. simpl. apply Forall_app. split; [exact Hprocs|].
    constructor; [exact I | constructor].
Qed.

Lemma step_configOk (s : Step) (w : World) :
  configOk w -> configOk (worldOf (step s w)).
Proof.
  intros H. destruct s as [a|r|r]; simpl.
  - now apply act_configOk.
  - now apply start_configOk.
  - now apply onPingResult_configOk.
Qed.

(** X20.  In every state a new instance can reach, by whatever sequence
    of method calls and host events, the registry is duplicate-free and
    lower-case, the stored options are truthy numbers, the presence list
    is duplicate-free, and every l2ping process alive was spawned with a
    truthy count and a truthy timeout. *)
Theorem reachable_states_are_configOk (l : list Step) :
  configOk (worldOf (stepAll l newWorld)).
Proof.
  assert (Hgen : forall w, configOk w -> configOk (worldOf (stepAll l w))).
  { induction l as [|s r IH]; intros w H; simpl; [exact H|].
    pose proof (step_configOk s w H) as H1.
    destruct (step s w) as [w'|msg w']; simpl in H1; [now apply IH | exact H1]. }
  apply Hgen. split; [|split; [|split]].
  - split; [constructor | intros a []].
  - split; reflexivity.
  - constructor.
  - constructor.
Qed.

Lemma scanForAllDevices_latch (w : World) :
  reportFirstResult (self (scanForAllDevices w)) = reportFirstResult (self w).
Proof.
  rewrite scanForAllDevices_eq. cbv zeta. now rewrite pingEach_eq.
Qed.

Lemma deliver_latch (e : HostEvent) (w : World) :
  reportFirstResult (self w) = false ->
  reportFirstResult (self (worldOf (deliver e w))) = false.
Proof.
  intros H. destruct e as [t|n|n code|n|n|n]; unfold deliver.
  - destruct (isPending t (host w)); [|exact H]. cbn [worldOf].
    rewrite scanForAllDevices_latch. exact H.
  - destruct (lookupProc n (host w)) as [[nx|c t m cb]|]; exact H.
  - destruct (lookupProc n (host w)) as [[nx|c t m cb]|]; try exact H.
    cbv zeta.
    match goal with
    | |- context [if ?c then _ else _] => destruct c
    end; [|exact H].
    destruct nx as [[]|]; cbn [worldOf runNext]; [|exact H].
    rewrite scanForAllDevices_latch. exact H.
  - destruct (lookupProc n (host w)) as [[nx|c t m cb]|]; try exact H.
    destruct cb as [[]|]; cbn [worldOf runCallback]; [|exact H].
    now rewrite onPingResult_self.
  - destruct (lookupProc n (host w)) as [[nx|c t m cb]|]; try exact H.
    destruct cb as [[]|]; cbn [worldOf runCallback]; [|exact H].
    now rewrite onPingResult_self.
  - destruct (lookupProc n (host w)) as [[nx|c t m cb]|]; exact H.
Qed.

(** X21.  Once a result has been processed the latch stays consumed: no
    host event and no method other than [start] ever sets
    [reportFirstResult] again, so from then on aggregate events are
    raised on changes of the collective signal only. *)
Theorem latch_stays_consumed (r : PingResult) (l : list Action) (w : World) :
  reportFirstResult
    (self (worldOf (actAll l (onPingResult r w)))) = false.
Proof.
  assert (Hgen : forall w0, reportFirstResult (self w0) = false ->
                   reportFirstResult (self (worldOf (actAll l w0))) = false).
  { induction l as [|a rest IH]; intros w0 H; simpl; [exact H|].
    assert (H1 : reportFirstResult (self (worldOf (act a w0))) = false).
    { destruct a as [e| |x|x|x|o|s]; simpl.
      - now apply deliver_latch.
      - destruct (timer (self w0)) as [t|] eqn:Et.
        + now rewrite (stop_eq w0 t Et).
        + unfold stop. now rewrite Et.
      - now destruct x.
      - now destruct x.
      - exact H.
      - exact H.
      - now destruct s. }
    destruct (act a w0) as [w'|msg w']; simpl in H1; [now apply IH | exact H1]. }
  apply Hgen. now rewrite onPingResult_self.
Qed.

(** Apart from [onPingResult], nothing touches the presence list or the
    emitter: a step either is a call of [onPingResult] on the state as
    it is, or leaves both alone. *)
Lemma scanForAllDevices_quiet (w : World) :
  emitted (host (scanForAllDevices w)) = emitted (host w)
  /\ btDevicesPresent (self (scanForAllDevices w)) = btDevicesPresent (self w).
Proof.
  rewrite scanForAllDevices_eq. cbv zeta. rewrite pingEach_eq. now split.
Qed.

Lemma deliver_quiet_or_result (e : HostEvent) (w : World) :
  (emitted (host (worldOf (deliver e w))) = emitted (host w)
   /\ btDevicesPresent (self (worldOf (deliver e w)))
      = btDevicesPresent (self w))
  \/ exists r, worldOf (deliver e w) = onPingResult r w.
Proof.
  destruct e as [t|n|n code|n|n|n]; unfold deliver.
  - left. destruct (isPending t (host w)); [|now split]. cbn [worldOf].
    destruct (scanForAllDevices_quiet (onHost (clearTimeout t) w)) as [-> ->].
    now split.
  - left. destruct (lookupProc n (host w)) as [[nx|c t m cb]|]; now split.
  - left. destruct (lookupProc n (host w)) as [[nx|c t m cb]|];
      try (now split).
    cbv zeta.
    match goal with
    | |- context [if ?c then _ else _] => destruct c
    end; [|now split].
    destruct nx as [[]|]; cbn [worldOf runNext]; [|now split].
    match goal with
    | |- context [scanForAllDevices ?w0] =>
        destruct (scanForAllDevices_quiet w0) as [-> ->]
    end. now split.
  - destruct (lookupProc n (host w)) as [[nx|c t m cb]|];
      try (left; now split).
    destruct cb as [[]|]; [right; eexists; reflexivity | left; now split].
  - destruct (lookupProc n (host w)) as [[nx|c t m cb]|];
      try (left; now split).
    destruct cb as [[]|]; [right; eexists; reflexivity | left; now split].
  - left. destruct (lookupProc n (host w)) as [[nx|c t m cb]|]; now split.
Qed.

Lemma step_quiet_or_result (s : Step) (w : World) :
  (emitted (host (worldOf (step s w))) = emitted (host w)
   /\ btDevicesPresent (self (worldOf (step s w)))
      = btDevicesPresent (self w))
  \/ exists r, worldOf (step s w) = onPingResult r w.
Proof.
  destruct s as [[e| |l|l|l|o|x]|r|r]; simpl.
  - apply deliver_quiet_or_result.
  - left. destruct (stop_procs w) as [_ ->]. split; [reflexivity|].
    destruct (timer (self w)) as [t|] eqn:Et.
    + now rewrite (stop_eq w t Et).
    + unfold stop. now rewrite Et.
  - left. now destruct l.
  - left. now destruct l.
  - left. now split.
  - left. now split.
  - left. now destruct x.
  - left. rewrite start_eq.
    destruct (isL2PingAvailable (self w)).
    + destruct (scanForAllDevices_quiet (latched r w)) as [-> ->].
      now destruct r.
    + now destruct r.
  - right. now exists r.
Qed.

Lemma stepAll_invariant (P : World -> Prop) :
  (forall s w, P w -> P (worldOf (step s w))) ->
  forall l w, P w -> P (worldOf (stepAll l w)).
Proof.
  intros Hstep. induction l as [|s r IH]; intros w H; simpl; [exact H|].
  pose proof (Hstep s w H) as H1.
  destruct (step s w) as [w'|msg w']; simpl in H1; [now apply IH | exact H1].
Qed.

Lemma lastAggregate_app (l l' : list Emission) (acc : option bool) :
  lastAggregate (l ++ l') acc = lastAggregate l' (lastAggregate l acc).
Proof.
  revert acc. induction l as [|e r IH]; intros acc; simpl;
    [reflexivity | apply IH].
Qed.

Lemma onPingResult_inSync (r : PingResult) (w : World) :
  inSync w -> inSync (onPingResult r w).
Proof.
  unfold inSync. intros H.
  rewrite (onPingResult_emitted r w), lastAggregate_app. simpl.
  destruct (reportFirstResult (self w));
    destruct (anyPresent w) eqn:Ew, (anyPresent (onPingResult r w)) eqn:Ew';
    simpl; try reflexivity;
    destruct (lastAggregate (emitted (host w)) None) as [[|]|];
    congruence.
Qed.

(** X22.  Subscribers of the aggregate events are never out of step:
    in every state a new instance can reach, the most recent aggregate
    event is [present] exactly when the presence list is non-empty, and
    as long as no aggregate event was raised the list is empty. *)
Theorem aggregate_events_track_presence (l : list Step) :
  inSync (worldOf (stepAll l newWorld)).
Proof.
  apply stepAll_invariant; [|reflexivity].
  intros s w H. destruct (step_quiet_or_result s w) as [[He Hp]|[r ->]].
  - unfold inSync, anyPresent in *. now rewrite He, Hp.
  - now apply onPingResult_inSync.
Qed.

Lemma onPingResult_presentLogged (r : PingResult) (w : World) :
  presentLogged w -> presentLogged (onPingResult r w).
Proof.
  intros H a Ha. rewrite onPingResult_pingResults. apply in_or_app.
  apply onPingResult_present_In in Ha.
  destruct r as [addr [|]]; simpl in Ha.
  - destruct Ha as [Ha| ->]; [left; now apply H | right; now left].
  - left. apply H, Ha.
Qed.

(** X23.  Nobody is believed present without evidence: in every state a
    new instance can reach, each address in the presence list was
    announced by a [ping-result] event with [isPresent = true]. *)
Theorem presence_needs_a_positive_result (l : list Step) :
  presentLogged (worldOf (stepAll l newWorld)).
Proof.
  apply stepAll_invariant; [|intros a []].
  intros s w H. destruct (step_quiet_or_result s w) as [[He Hp]|[r ->]].
  - unfold presentLogged, pingResults in *. now rewrite He, Hp.
  - now apply onPingResult_presentLogged.
Qed.

Lemma probesFor_targets (opts : L2pingOptions) (a : string)
    (macs : list string) :
  ~ In a macs -> forall n, Forall (notProbed a) (probesFor opts n macs).
Proof.
  unfold probesFor. induction macs as [|m r IH]; intros Hn n; simpl;
    constructor.
  - unfold notProbed. simpl. intros ->. apply Hn. now left.
  - apply IH. intros H. apply Hn. now right.
Qed.

Lemma Forall_filter_keep {A} (P : A -> Prop) (f : A -> bool) (l : list A) :
  Forall P l -> Forall P (filter f l).
Proof.
  rewrite !Forall_forall. intros H x Hx. apply filter_In in Hx. now apply H.
Qed.

Lemma scanForAllDevices_stale (a : string) (w : World) :
  stale a w -> stale a (scanForAllDevices w).
Proof.
  intros [Hp [Hr Hq]].
  rewrite scanForAllDevices_eq. cbv zeta. rewrite pingEach_eq.
  split; [exact Hp|]. split; [exact Hr|].
  simpl. apply Forall_app. split; [exact Hq|]. now apply probesFor_targets.
Qed.

Lemma deliver_stale (a : string) (e : HostEvent) (w : World) :
  stale a w -> stale a (worldOf (deliver e w)).
Proof.
  intros H. pose proof H as [Hp [Hr Hq]].
  assert (Hdata : forall n c t m b,
            lookupProc n (host w) = Some (L2ping c t m (Some OnPingResult)) ->
            stale a (onPingResult (mkResult m b) w)).
  { intros n c t m b Hl. apply lookupProc_In in Hl.
    pose proof Hq as Hq0.
    rewrite Forall_forall in Hq. specialize (Hq _ Hl).
    unfold notProbed in Hq. simpl in Hq.
    split; [|split].
    - apply onPingResult_present_In. simpl.
      destruct b; [now left | split; congruence].
    - now rewrite onPingResult_self.
    - rewrite onPingResult_procs. exact Hq0. }
  destruct e as [t|n|n code|n|n|n]; unfold deliver.
  - destruct (isPending t (host w)); [|exact H]. cbn [worldOf].
    apply scanForAllDevices_stale. exact H.
  - destruct (lookupProc n (host w)) as [[nx|c t m cb]|]; exact H.
  - destruct (lookupProc n (host w)) as [[nx|c t m cb]|]; try exact H.
    cbv zeta.
    match goal with
    | |- context [onHost (reap n) ?w0] =>
        assert (H1 : stale a (onHost (reap n) w0))
    end.
    { split; [exact Hp|]. split; [exact Hr|]. simpl.
      now apply Forall_filter_keep. }
    match goal with
    | |- context [if ?c then _ else _] => destruct c
    end; [|exact H1].
    destruct nx as [[]|]; cbn [worldOf runNext]; [|exact H1].
    now apply scanForAllDevices_stale.
  - destruct (lookupProc n (host w)) as [[nx|c t m cb]|] eqn:El; try exact H.
    destruct cb as [[]|]; cbn [worldOf runCallback]; [|exact H].
    now apply (Hdata n c t).
  - destruct (lookupProc n (host w)) as [[nx|c t m cb]|] eqn:El; try exact H.
    destruct cb as [[]|]; cbn [worldOf runCallback]; [|exact H].
    now apply (Hdata n c t).
  - destruct (lookupProc n (host w)) as [[nx|c t m cb]|]; try exact H.
    cbn [worldOf]. split; [exact Hp|]. split; [exact Hr|]. simpl.
    now apply Forall_filter_keep.
Qed.

(** X24.  Presence is not purged.  An address that is in the presence
    list while it is neither registered nor the target of a live probe
    (a device taken out with [removeDevices] or [setDevices] after its
    last probe closed) stays in the presence list whatever the host
    does next, ticks, results, exits and closes alike, so the collective
    signal can no longer fall back to not-present. *)
Theorem unregistered_presence_is_never_purged (a : string)
    (es : list HostEvent) (w : World)
    (Hstale : stale a w) :
  In a (btDevicesPresent (self (worldOf (deliverAll es w))))
  /\ anyPresent (worldOf (deliverAll es w)) = true.
Proof.
  assert (Hgen : stale a (worldOf (deliverAll es w))).
  { revert w Hstale. induction es as [|e r IH]; intros w H; simpl;
      [exact H|].
    pose proof (deliver_stale a e w H) as H1.
    destruct (deliver e w) as [w'|msg w']; simpl in H1;
      [now apply IH | exact H1]. }
  destruct Hgen as [Hin _]. split; [exact Hin|].
  unfold anyPresent.
  destruct (btDevicesPresent (self (worldOf (deliverAll es w))));
    [destruct Hin | reflexivity].
Qed.

Lemma unregistered_presence_is_never_purged_witness :
  stale "aa:01" staleWorld
  /\ In "aa:01"
       (btDevicesPresent (self (worldOf
          (deliverAll [TimerFired 0%nat; TimerFired 1%nat] staleWorld))))
  /\ anyPresent (worldOf
        (deliverAll [TimerFired 0%nat; TimerFired 1%nat] staleWorld)) = true.
Proof.
  assert (Hstale : stale "aa:01" staleWorld).
  { split; [simpl; now left|]. split; [intros []|]. constructor. }
  split; [exact Hstale|].
  apply (unregistered_presence_is_never_purged "aa:01"
           [TimerFired 0%nat; TimerFired 1%nat] staleWorld Hstale).
Defined.
